(** * AnalysisTools: survey-table aggregation (analysis_tools.py)

    A shallow embedding of the [AnalysisTools] class and of the part of
    pandas it drives, followed by the properties of its operations.

    Modelling conventions.
    - A Python [str] is a Rocq [string]; a character is a code point below
      256, so [strip] and [lower] follow Python on the Latin-1 range.
    - A table cell holds text or is missing ([None] stands for NaN/None).
    - A [float64] is the rational it denotes, or one of inf, -inf, nan;
      every operation rounds its exact result to 53 significant bits,
      ties to even.  The exponent range is not bounded: counts are
      64-bit integers and a total beyond the largest float64 is refused,
      so nothing overflows, and a quotient below the normal range rounds
      to 0.0 at two decimals whatever its last bits.
    - An exception is a value of [exn]; a call returns [result]. *)

From Stdlib Require Import Ascii QArith Qround Qabs Qpower Lqa.
From Stdlib Require OrderedTypeEx.
From stdpp Require Import base list strings gmap sorting.

(** ** Python strings *)

Module PyStr.

(** [str.isspace] on one character, for code points 0..255. *)
Definition isspace (c : ascii) : bool :=
  let n := Ascii.N_of_ascii c in
  ((9 <=? n) && (n <=? 13) || (28 <=? n) && (n <=? 32)
   || (n =? 133) || (n =? 160))%N.

Fixpoint lstrip (s : string) : string :=
  match s with
  | EmptyString => EmptyString
  | String c s' => if isspace c then lstrip s' else s
  end.

Fixpoint rstrip (s : string) : string :=
  match s with
  | EmptyString => EmptyString
  | String c s' =>
      match rstrip s' with
      | EmptyString => if isspace c then EmptyString else String c EmptyString
      | r => String c r
      end
  end.

(** [s.strip()] *)
Definition strip (s : string) : string := rstrip (lstrip s).

(** [s.replace(old, new)]: occurrences are found left to right and do
    not overlap; [skip] counts the characters of a match still to drop. *)
Fixpoint replace_go (old new : string) (skip : nat) (s : string) : string :=
  match s with
  | EmptyString =>
      match old with EmptyString => new | _ => EmptyString end
  | String c s' =>
      match skip with
      | S k => replace_go old new k s'
      | O =>
          if String.prefix old s
          then match old with
               | EmptyString => new +:+ String c (replace_go old new O s')
               | String _ o => new +:+ replace_go old new (String.length o) s'
               end
          else String c (replace_go old new O s')
      end
  end.

Definition replace (old new s : string) : string := replace_go old new O s.

(** [str.lower] on one character, for code points 0..255: A-Z and the
    Latin-1 capitals 192..222 except the multiplication sign 215. *)
Definition lower_char (c : ascii) : ascii :=
  let n := Ascii.N_of_ascii c in
  if ((65 <=? n) && (n <=? 90)
      || (192 <=? n) && (n <=? 222) && negb (n =? 215))%N
  then Ascii.ascii_of_N (n + 32) else c.

Fixpoint lower (s : string) : string :=
  match s with
  | EmptyString => EmptyString
  | String c s' => String (lower_char c) (lower s')
  end.

(** [c in s] for one character. *)
Fixpoint mem_char (c : ascii) (s : string) : bool :=
  match s with
  | EmptyString => false
  | String a s' => if decide (a = c) then true else mem_char c s'
  end.

(** [pat in s] *)
Fixpoint occurs (pat s : string) : bool :=
  String.prefix pat s
  || match s with
     | EmptyString => false
     | String _ s' => occurs pat s'
     end.

(** The characters that [sanitize_name] replaces or removes. *)
Definition rewritten (c : ascii) : Prop :=
  c = " "%char ∨ c = "."%char ∨ c = "-"%char ∨ c = "("%char ∨ c = ")"%char.

(** ['_'.join(parts)] *)
Fixpoint join (sep : string) (parts : list string) : string :=
  match parts with
  | [] => EmptyString
  | [p] => p
  | p :: ps => p +:+ sep +:+ join sep ps
  end.

End PyStr.

(** ** Exceptions and results *)

(** [KeyError msg] carries the exception's argument.  [ValueError] and
    [TypeError] carry the label pandas complains about (a word of the
    message where there is none); the wording of pandas' own messages
    is not modelled.  [OverflowError] is what
    numpy raises for a Python integer too large for the float64 it is
    converted to. *)
Inductive exn : Type :=
  | KeyError (msg : string)
  | ValueError (label : string)
  | TypeError (label : string)
  | OverflowError.

Inductive result (A : Type) : Type :=
  | Ok (a : A)
  | Raise (e : exn).
Arguments Ok {A} a.
Arguments Raise {A} e.

Definition is_ok {A} (r : result A) : bool :=
  match r with Ok _ => true | Raise _ => false end.

#[global] Instance result_ret : MRet result := fun A a => Ok a.

#[global] Instance result_bind : MBind result := fun A B k r =>
  match r with
  | Ok a => k a
  | Raise e => Raise e
  end.

(** Splits the first step off a successful monadic computation. *)
Ltac bind_inv H x Hx :=
  lazymatch type of H with
  | (?m ≫= _) = Ok _ =>
      destruct m as [x|] eqn:Hx; simpl in H; [|discriminate H]
  end.

(** Settles a decidable proposition about concrete data by evaluation. *)
Ltac by_evaluation := apply (bool_decide_unpack _); vm_compute; exact I.

(** ** Tables *)

Definition cell : Type := option string.

Record DataFrame : Type := mkDataFrame {
  columns : list string;
  data : list (list cell)
}.

(** The instance state set up by [__init__]. *)
Record AnalysisTools : Type := mkAnalysisTools {
  df : DataFrame;
  total_respondents : Z;
  question_col : string;
  subquest_col : string;
  respondent_col : string;
  answer_col : string
}.

(** [AnalysisTools(dataframe, total_respondents)] with the default names. *)
Definition init (dataframe : DataFrame) (total : Z) : AnalysisTools :=
  mkAnalysisTools dataframe total
    "question" "subquestion" "respondent_id" "answer".

Definition set_df (st : AnalysisTools) (d : DataFrame) : AnalysisTools :=
  mkAnalysisTools d (total_respondents st) (question_col st)
    (subquest_col st) (respondent_col st) (answer_col st).

Definition set_total (st : AnalysisTools) (total : Z) : AnalysisTools :=
  mkAnalysisTools (df st) total (question_col st)
    (subquest_col st) (respondent_col st) (answer_col st).

(** ** 1. sanitize_columns *)

(** The body of the loop: the new name of one column. *)
Definition sanitize_name (col : string) : string :=
  let name := PyStr.strip col in
  let name := PyStr.replace ")" ""
               (PyStr.replace "(" ""
                 (PyStr.replace "-" "_"
                   (PyStr.replace "." "_"
                     (PyStr.replace " " "_" name)))) in
  let name := PyStr.replace "__" "_" name in
  PyStr.lower name.

(** The dict [new_cols] after the loop over [self.df.columns]. *)
Definition build_new_cols (cols : list string) : gmap string string :=
  foldl (fun m col => <[col := sanitize_name col]> m) ∅ cols.

(** [df.rename(columns=mapping)]: labels absent from the mapping stay. *)
Definition rename (mapping : gmap string string) (d : DataFrame) : DataFrame :=
  mkDataFrame ((fun c => default c (mapping !! c)) <$> columns d) (data d).

(** Returns the renamed table and the updated instance. *)
Definition sanitize_columns (st : AnalysisTools) : DataFrame * AnalysisTools :=
  let new_cols := build_new_cols (columns (df st)) in
  let d := rename new_cols (df st) in
  (d, set_df st d).


(** ** float64 and integer columns *)

(** Signed zeros are not distinguished. *)
Inductive float : Type :=
  | Fin (q : Q)
  | PInf
  | NInf
  | NaN.

(** [numpy.rint]: the nearest integer, ties to the even one. *)
Definition rint (q : Q) : Z :=
  let f := Qfloor q in
  match (q - inject_Z f ?= 1 # 2)%Q with
  | Lt => f
  | Gt => (f + 1)%Z
  | Eq => if Z.even f then f else (f + 1)%Z
  end.

(** The binary exponent of a positive rational: the [k] with
    [2^k <= q < 2^(k+1)]. *)
Definition ilog2 (q : Q) : Z :=
  let k := (Z.log2 (Qnum q) - Z.log2 (Zpos (Qden q)))%Z in
  if Qle_bool (2 ^ k) q then k else (k - 1)%Z.

(** Rounding of a positive rational to 53 significant bits. *)
Definition fl_pos (q : Q) : Q :=
  let e := (ilog2 q - 52)%Z in
  (inject_Z (rint (q / 2 ^ e)) * 2 ^ e)%Q.

(** The float64 nearest to a rational, ties to even; the result is kept
    in lowest terms. *)
Definition fl (q : Q) : Q :=
  let q := Qred q in
  Qred match (q ?= 0)%Q with
       | Eq => 0
       | Gt => fl_pos q
       | Lt => - fl_pos (- q)
       end.

(** Half the relative spacing of float64 values, [2^-53]. *)
Definition ulp2 : Q := 1 # 9007199254740992.

(** The float64 that a decimal literal denotes, as in [66.67]. *)
Definition f64 (q : Q) : float := Fin (fl q).

(** The conversion of an integer column or scalar to float64. *)
Definition of_int (z : Z) : float := Fin (fl (inject_Z z)).

Definition inf (negative : bool) : float := if negative then NInf else PInf.

Definition Qneg (q : Q) : bool :=
  match (q ?= 0)%Q with Lt => true | _ => false end.

(** [x / y] on float64 as numpy computes it: no exception on a zero
    divisor, the quotient is then infinite or nan. *)
Definition fdiv (x y : float) : float :=
  match x, y with
  | NaN, _ | _, NaN => NaN
  | Fin a, Fin b =>
      if Qeq_bool b 0
      then (if Qeq_bool a 0 then NaN else inf (Qneg a))
      else Fin (fl (a / b))
  | Fin _, (PInf | NInf) => Fin 0
  | PInf, Fin b => inf (Qneg b)
  | NInf, Fin b => inf (negb (Qneg b))
  | (PInf | NInf), (PInf | NInf) => NaN
  end.

(** [x * y] on float64. *)
Definition fmul (x y : float) : float :=
  match x, y with
  | NaN, _ | _, NaN => NaN
  | Fin a, Fin b => Fin (fl (a * b))
  | Fin a, PInf | PInf, Fin a =>
      if Qeq_bool a 0 then NaN else inf (Qneg a)
  | Fin a, NInf | NInf, Fin a =>
      if Qeq_bool a 0 then NaN else inf (negb (Qneg a))
  | PInf, PInf | NInf, NInf => PInf
  | PInf, NInf | NInf, PInf => NInf
  end.

(** [Series.round(2)]: numpy multiplies by 100.0, rounds to an integer
    and divides by 100.0, each in float64. *)
Definition round2 (x : float) : float :=
  match x with
  | Fin q => Fin (fl (inject_Z (rint (fl (q * 100))) / 100))
  | _ => x
  end.

Definition is_finite (x : float) : bool :=
  match x with Fin _ => true | _ => false end.

(** The sum of two values as numbers: finite values add without
    rounding.  The program adds no floats; sums serve to state
    properties of a column of percentages. *)
Definition fadd (x y : float) : float :=
  match x, y with
  | NaN, _ | _, NaN => NaN
  | Fin a, Fin b => Fin (a + b)
  | PInf, NInf | NInf, PInf => NaN
  | PInf, _ | _, PInf => PInf
  | NInf, _ | _, NInf => NInf
  end.

(** The sum of the values of a float column, as a number. *)
Definition fsum (xs : list float) : float := foldr fadd (Fin 0) xs.

(** [series.sum()] of an integer column. *)
Definition zsum (xs : list Z) : Z := foldr Z.add 0%Z xs.

(** ** Column lookup, filtering and grouping *)

Fixpoint positions (label : string) (cols : list string) (i : nat) : list nat :=
  match cols with
  | [] => []
  | c :: cols' =>
      if decide (c = label) then i :: positions label cols' (S i)
      else positions label cols' (S i)
  end.

(** Resolving a label used as a key ([df[label]], a group-by key): an
    absent label is a [KeyError]; a label carried by several columns
    selects a two-dimensional object, on which pandas fails. *)
Definition get_loc (cols : list string) (label : string) : result nat :=
  match positions label cols 0 with
  | [] => Raise (KeyError label)
  | [i] => Ok i
  | _ => Raise (ValueError label)
  end.

(** Selecting the aggregated column of a group-by, [grouped[label]]. *)
Definition select_column (cols : list string) (label : string) : result nat :=
  match positions label cols 0 with
  | [] => Raise (KeyError ("Column not found: " +:+ label))
  | [i] => Ok i
  | _ => Raise (TypeError label)
  end.

(** The cell of a row at a position (a short row reads as missing). *)
Definition at_loc (row : list cell) (i : nat) : cell := mjoin (row !! i).

(** [series.isin(q_list)] on one cell; a missing cell is in no list of
    strings. *)
Definition isin (q_list : list string) (c : cell) : bool :=
  match c with
  | Some s => bool_decide (s ∈ q_list)
  | None => false
  end.

(** [df[df[col].isin(q_list)]], [col] at position [i]. *)
Definition filter_isin (i : nat) (q_list : list string)
    (rows : list (list cell)) : list (list cell) :=
  filter (fun r => isin q_list (at_loc r i) = true) rows.

(** Python's order on tuples of strings. *)
Fixpoint key_compare (k1 k2 : list string) : comparison :=
  match k1, k2 with
  | [], [] => Eq
  | [], _ :: _ => Lt
  | _ :: _, [] => Gt
  | a :: k1', b :: k2' =>
      match String.compare a b with
      | Eq => key_compare k1' k2'
      | c => c
      end
  end.

Definition key_le (k1 k2 : list string) : Prop := key_compare k1 k2 ≠ Gt.

#[global] Instance key_le_dec : RelDecision key_le.
Proof. intros k1 k2. unfold key_le. apply _. Defined.

(** Row [r] of table [d] holds the value [v] under the label [label]. *)
Definition cell_at (d : DataFrame) (r : list cell) (label v : string) : Prop :=
  ∃ i, get_loc (columns d) label = Ok i ∧ at_loc r i = Some v.

(** The group key of a row; [None] when one of the key cells is missing:
    such rows belong to no group (pandas' default [dropna=True]). *)
Definition row_key (locs : list nat) (row : list cell) : option (list string) :=
  mapM (at_loc row) locs.

(** [rows.groupby(keys)]: the distinct keys in ascending order, each
    with its rows in table order. *)
Definition groupby (locs : list nat) (rows : list (list cell))
    : list (list string * list (list cell)) :=
  let keys := merge_sort key_le (remove_dups (omap (row_key locs) rows)) in
  (fun k => (k, filter (fun r => row_key locs r = Some k) rows)) <$> keys.

(** How [rows.groupby(keys)] reads a list of keys.  A list with as many
    keys as the table has rows, one of which is not a column label, is
    taken as a vector of group labels, one for each row in turn;
    otherwise every key names a column. *)
Inductive grouping : Type :=
  | ByColumns (locs : list nat)
  | ByLabels (labels : list string).

Definition resolve_keys (loc : string → result nat) (cols : list string)
    (rows : list (list cell)) (keys : list string) : result grouping :=
  if decide (length keys = length rows ∧ ¬ Forall (fun k => k ∈ cols) keys)
  then Ok (ByLabels keys)
  else locs ← mapM loc keys; Ok (ByColumns locs).

(** Grouping by a vector of labels: the distinct labels in ascending
    order, each with the rows at the positions that carry it. *)
Definition groupby_labels (labels : list string) (rows : list (list cell))
    : list (list string * list (list cell)) :=
  let keys := merge_sort key_le (remove_dups ((fun l => [l]) <$> labels)) in
  (fun k => (k, (filter (fun lr => [lr.1] = k) (zip labels rows)).*2)) <$> keys.

Definition groups (g : grouping) (rows : list (list cell))
    : list (list string * list (list cell)) :=
  match g with
  | ByColumns locs => groupby locs rows
  | ByLabels labels => groupby_labels labels rows
  end.

(** The names of the index levels of the grouped result: the keys, or
    none for the single level of a label vector. *)
Definition index_names (g : grouping) (keys : list string) : list string :=
  match g with
  | ByColumns _ => keys
  | ByLabels _ => []
  end.

(** [series.nunique()]: distinct values, missing ones left out. *)
Definition nunique (cells : list cell) : Z :=
  Z.of_nat (length (remove_dups (omap id cells))).

(** [series.count()]: values that are not missing. *)
Definition count_notna (cells : list cell) : Z :=
  Z.of_nat (length (omap id cells)).

(** One row of a frequency table: the row key (one value per index
    level), the count column and the ['Percentage (%)'] column. *)
Record entry : Type := mkEntry {
  key : list string;
  Count : Z;
  Percentage : float
}.

(** [sort_values(by=label)] resolves each [by] label to an index level
    or to a column of the frame: a label that is both is ambiguous, and
    so is one naming several index levels. *)
Definition check_sort_label (index_names value_cols : list string)
    (label : string) : result unit :=
  match positions label index_names 0 with
  | [] => if decide (label ∈ value_cols) then Ok ()
          else Raise (KeyError label)
  | [_] => if decide (label ∈ value_cols) then Raise (ValueError label)
           else Ok ()
  | _ => Raise (ValueError label)
  end.

Definition entry_le (e1 e2 : entry) : Prop := key_le (key e1) (key e2).

#[global] Instance entry_le_dec : RelDecision entry_le.
Proof. intros e1 e2. unfold entry_le. apply _. Defined.

(** Order by the first [n] index levels only. *)
Definition level_le (n : nat) (e1 e2 : entry) : Prop :=
  key_le (take n (key e1)) (take n (key e2)).

#[global] Instance level_le_dec n : RelDecision (level_le n).
Proof. intros e1 e2. unfold level_le. apply _. Defined.

(** The order in which a float column is sorted, nan last. *)
Definition float_compare (x y : float) : comparison :=
  match x, y with
  | NaN, NaN => Eq
  | NaN, _ => Gt
  | _, NaN => Lt
  | NInf, NInf => Eq
  | NInf, _ => Lt
  | _, NInf => Gt
  | PInf, PInf => Eq
  | PInf, _ => Gt
  | _, PInf => Lt
  | Fin a, Fin b => (a ?= b)%Q
  end.

(** Sorting by value columns, as happens when the index has no named
    level: each [by] label is the count column [count_label] or the
    percentage column; rows that agree on all of them keep the order of
    their keys. *)
Fixpoint values_compare (count_label : string) (by_ : list string)
    (e1 e2 : entry) : comparison :=
  match by_ with
  | [] => key_compare (key e1) (key e2)
  | label :: by' =>
      match (if decide (label = count_label)
             then Z.compare (Count e1) (Count e2)
             else float_compare (Percentage e1) (Percentage e2)) with
      | Eq => values_compare count_label by' e1 e2
      | c => c
      end
  end.

Definition values_le (count_label : string) (by_ : list string)
    (e1 e2 : entry) : Prop :=
  values_compare count_label by_ e1 e2 ≠ Gt.

#[global] Instance values_le_dec count_label by_ :
  RelDecision (values_le count_label by_).
Proof. intros e1 e2. unfold values_le. apply _. Defined.

(** A Python integer as an operand of a float64 operation: numpy
    converts it to float64, which fails when it rounds beyond the
    largest float64, [2^1024 - 2^971]. *)
Definition float_scalar (z : Z) : result Z :=
  if decide (Z.abs z < 2 ^ 1024 - 2 ^ 970)%Z then Ok z
  else Raise OverflowError.

(** The percentage expression shared by the three frequency methods:
    [(count / denominator * 100).round(2)]. *)
Definition percent (count denominator : Z) : float :=
  round2 (fmul (fdiv (of_int count) (of_int denominator)) (of_int 100)).

(** ** 2. multi_response_analysis *)

Definition multi_response_analysis (st : AnalysisTools)
    (q_list : list string) (group_cols : list string) : result (list entry) :=
  let cols := columns (df st) in
  qloc ← get_loc cols (question_col st);
  let df_mr := filter_isin qloc q_list (data (df st)) in
  let grouping_keys := group_cols ++ [question_col st; subquest_col st] in
  g ← resolve_keys (get_loc cols) cols df_mr grouping_keys;
  rloc ← select_column cols (respondent_col st);
  let mr_frequencies :=
    (fun grp => (grp.1, nunique ((fun r => at_loc r rloc) <$> grp.2)))
      <$> groups g df_mr in
  total ← float_scalar (total_respondents st);
  let mr_frequencies :=
    (fun kc => mkEntry kc.1 kc.2 (percent kc.2 total)) <$> mr_frequencies in
  _ ← mapM (check_sort_label (index_names g grouping_keys)
              ["Response Count"; "Percentage (%)"])
        grouping_keys;
  Ok (match g with
      | ByColumns _ => merge_sort entry_le mr_frequencies
      | ByLabels _ =>
          merge_sort (values_le "Response Count" grouping_keys) mr_frequencies
      end).

(** [df_mr[respondent_col].nunique()]: the distinct respondent
    identifiers of the filtered table as a whole. *)
Definition filtered_respondents (st : AnalysisTools) (q_list : list string)
    : result Z :=
  let cols := columns (df st) in
  qloc ← get_loc cols (question_col st);
  rloc ← select_column cols (respondent_col st);
  Ok (nunique ((fun r => at_loc r rloc)
                 <$> filter_isin qloc q_list (data (df st)))).

(** ** 3. nominal_frequency_analysis *)

(** [counts.groupby(level=0)['Count'].transform('sum')] at one row: the
    sum of the counts whose first index level equals that of [k]. *)
Definition level0_total (counts : list (list string * Z)) (k : list string) : Z :=
  zsum (snd <$> filter (fun kc => head kc.1 = head k) counts).

(** Both nominal methods finish alike: the per-question total and the
    percentage of each count in it. *)
Definition with_percentage (counts : list (list string * Z)) : list entry :=
  (fun kc => mkEntry kc.1 kc.2 (percent kc.2 (level0_total counts kc.1)))
    <$> counts.

(** The final [sort_values(by=question)] orders by the first index level
    (by a value column when the index has no named level); pandas'
    default sort is not stable, so the order among rows that agree on
    the sort label is not part of this model's guarantees. *)
Definition nominal_frequency_analysis (st : AnalysisTools)
    (q_list : list string) (group_col : string) : result (list entry) :=
  let cols := columns (df st) in
  qloc ← get_loc cols (question_col st);
  let df_filtered := filter_isin qloc q_list (data (df st)) in
  let by_ := [question_col st; group_col; answer_col st] in
  g ← resolve_keys (get_loc cols) cols df_filtered by_;
  let raw_counts :=
    (fun grp => (grp.1, Z.of_nat (length grp.2))) <$> groups g df_filtered in
  let counts_df := with_percentage raw_counts in
  _ ← check_sort_label (index_names g by_) ["Count"; "Percentage (%)"]
        (question_col st);
  Ok (match g with
      | ByColumns _ => merge_sort (level_le 1) counts_df
      | ByLabels _ => merge_sort (values_le "Count" [question_col st]) counts_df
      end).

(** ** 4. nominal_frequency_pivot *)

(** [pd.pivot_table(rows, index=index, values=values, aggfunc='count')]
    with one value label.  The value label is checked first.  When the
    index keys and the value label that are columns are fewer than the
    columns of the table, the table is narrowed to them, one column for
    each mention, so that a label mentioned twice then names two
    columns.  The rows are grouped by the index keys and the non-missing
    cells of the value columns counted.  The last step of [pivot_table]
    drops the value columns without any non-missing entry, which removes
    those of a table without rows. *)

(** The labels among [index + [values]] that are columns. *)
Definition pivot_filter (cols index : list string) (values : string)
    : list string :=
  filter (fun x => x ∈ cols) (index ++ [values]).

(** How many times the table that is grouped repeats a column of the
    held table under [label]. *)
Definition pivot_mentions (cols index : list string) (values : string)
    (label : string) : nat :=
  let to_filter := pivot_filter cols index values in
  if bool_decide (length to_filter < length cols)
  then length (positions label to_filter 0)
  else 1.

(** Resolving a group-by key on the table that is grouped. *)
Definition pivot_loc (cols index : list string) (values : string)
    (label : string) : result nat :=
  if decide (1 < pivot_mentions cols index values label)
  then Raise (ValueError label)
  else get_loc cols label.

(** Returns the labels of the value columns left and the counts of the
    first of them. *)
Definition pivot_table_count (cols : list string) (rows : list (list cell))
    (index : list string) (values : string)
    : result (list string * list (list string * Z)) :=
  if decide (values ∈ cols) then
    g ← resolve_keys (pivot_loc cols index values) cols rows index;
    let vlocs := positions values cols 0 in
    let agged :=
      (fun grp =>
         (grp.1, count_notna ((fun r => at_loc r (default 0 (head vlocs)))
                                <$> grp.2)))
        <$> groups g rows in
    Ok (match agged with
        | [] => []
        | _ :: _ =>
            replicate (pivot_mentions cols index values values * length vlocs)
              values
        end, agged)
  else Raise (KeyError values).

(** The rename makes every value column a 'Count' column; without one
    the group-by selection fails, with several the total cannot be
    stored in the single column 'Question_Total'. *)
Definition nominal_frequency_pivot (st : AnalysisTools)
    (q_list : list string) (group_col : string) : result (list entry) :=
  let cols := columns (df st) in
  qloc ← get_loc cols (question_col st);
  let df_filtered := filter_isin qloc q_list (data (df st)) in
  '(value_cols, raw_counts_pivot) ←
    pivot_table_count cols df_filtered
      [question_col st; group_col; answer_col st] (respondent_col st);
  let value_cols : list string :=
    (fun c => if decide (c = respondent_col st) then "Count" else c)
      <$> value_cols in
  match positions "Count" value_cols 0 with
  | [] => Raise (KeyError "Column not found: Count")
  | [_] => Ok (merge_sort entry_le (with_percentage raw_counts_pivot))
  | _ => Raise (ValueError "Question_Total")
  end.

(** ** 5. grouped_summary_stats *)

Definition default_summary_funcs : list string := ["mean"; "std"; "count"].

(** The existence check that opens [grouped_summary_stats]. *)
Fixpoint check_columns (cols names : list string) : result unit :=
  match names with
  | [] => Ok ()
  | col :: names' =>
      if decide (col ∈ cols) then check_columns cols names'
      else Raise (KeyError ("Column '" +:+ col +:+ "' not found in the DataFrame."))
  end.

Section GroupedSummary.

(** pandas' named reductions ('mean', 'std', 'count', ...) applied to
    the cells of one column within one group; they can fail. *)
Variable reduce : string → list cell → result cell.

(** [df.groupby(group_col)[numeric_col_list].agg(summary_funcs)] with
    the flattening of the column labels and [reset_index], after the
    existence check: every label names at least one column.  A label
    carried by several columns selects all of them; an empty selection
    leaves the aggregation nothing to concatenate.  [summary_funcs] is
    taken to hold at least one function. *)
Definition aggregate (cols : list string) (rows : list (list cell))
    (numeric_col_list : list string) (group_col : string)
    (summary_funcs : list string) : result DataFrame :=
  gloc ← get_loc cols group_col;
  let selected :=
    numeric_col_list
      ≫= (fun label => (fun i => (label, i)) <$> positions label cols 0) in
  if decide (selected = []) then Raise (ValueError "concatenate")
  else
  body ← mapM (fun g =>
            cells ← mapM (fun cf =>
                            reduce cf.2 ((fun r => at_loc r cf.1.2) <$> g.2))
                      (list_prod selected summary_funcs);
            Ok ((Some <$> g.1) ++ cells))
          (groupby [gloc] rows);
  let flat :=
    (fun cf => PyStr.strip (PyStr.join "_" [cf.1.1; cf.2]))
      <$> list_prod selected summary_funcs in
  if decide (group_col ∈ flat) then Raise (ValueError group_col)
  else Ok (mkDataFrame (group_col :: flat) body).

(** Returns the outcome together with the instance after the call. *)
Definition grouped_summary_stats (st : AnalysisTools)
    (numeric_col_list : list string) (group_col : string)
    (summary_funcs : list string) : result DataFrame * AnalysisTools :=
  (_ ← check_columns (columns (df st)) (numeric_col_list ++ [group_col]);
   aggregate (columns (df st)) (data (df st))
     numeric_col_list group_col summary_funcs,
   st).

End GroupedSummary.

Definition scenario_table : DataFrame :=
  mkDataFrame ["question"; "subquestion"; "respondent_id"; "answer"]
    [ [Some "Q1"; Some "S1"; Some "R1"; Some "Yes"];
      [Some "Q1"; Some "S1"; Some "R2"; Some "Yes"];
      [Some "Q1"; Some "S2"; Some "R1"; Some "No"] ].

Definition scenario : AnalysisTools := init scenario_table 4.

(** Seven respondents with one answer each, out of a sample of 20000:
    the percentage 0.035 lies halfway between two roundings. *)
Definition seven_of_20000 : AnalysisTools :=
  init (mkDataFrame ["question"; "subquestion"; "respondent_id"; "answer"]
          ((fun r => [Some "Q1"; Some "S1"; Some r; Some "Yes"])
             <$> ["R1"; "R2"; "R3"; "R4"; "R5"; "R6"; "R7"]))
       20000.

(** 160 rows under one question, 23 of them with the first answer. *)
Definition twenty_three_of_160 : AnalysisTools :=
  init (mkDataFrame ["question"; "subquestion"; "respondent_id"; "answer"]
          (replicate 23 [Some "Q1"; Some "S1"; Some "R1"; Some "Yes"]
           ++ replicate 137 [Some "Q1"; Some "S2"; Some "R2"; Some "No"]))
       160.

(** Two instances whose question column is named like a value column
    of the result, on tables with as many filtered rows as grouping
    keys, one of which is not a column. *)
Definition named_response_count : AnalysisTools :=
  mkAnalysisTools
    (mkDataFrame ["Response Count"; "respondent_id"]
       [ [Some "Q1"; None]; [Some "Q1"; Some "R1"] ])
    4 "Response Count" "Percentage (%)" "respondent_id" "answer".

Definition named_count : AnalysisTools :=
  mkAnalysisTools
    (mkDataFrame ["Count"; "respondent_id"]
       [ [Some "Q1"; Some "R1"]; [Some "Q1"; Some "R2"];
         [Some "Q1"; Some "R3"] ])
    4 "Count" "subquestion" "respondent_id" "A".

(** A label that [sanitize_name] has nothing to do on: no surrounding
    whitespace, already lowercase, no double underscore and none of the
    characters that are replaced or removed. *)
Definition clean_label (n : string) : Prop :=
  PyStr.strip n = n ∧ PyStr.lower n = n ∧ PyStr.occurs "__" n = false ∧
  Forall (fun ch => PyStr.mem_char ch n = false)
         [" "%char; "."%char; "-"%char; "("%char; ")"%char].

(** The held table with its rows replaced, labels and settings kept. *)
Definition set_data (st : AnalysisTools) (rows : list (list cell)) : AnalysisTools :=
  set_df st (mkDataFrame (columns (df st)) rows).

(** Row [r] has all its key cells and its key is one of [ks]. *)
Definition has_key_in (locs : list nat) (ks : list (list string))
    (r : list cell) : Prop :=
  match row_key locs r with
  | Some k => k ∈ ks
  | None => False
  end.

#[global] Instance has_key_in_dec locs ks r : Decision (has_key_in locs ks r).
Proof. unfold has_key_in. destruct (row_key locs r); apply _. Defined.

(** * Properties *)

(** ** Python strings *)

Section PyStrFacts.
Import PyStr.

Lemma mem_char_app c s t :
  mem_char c (s +:+ t) = mem_char c s || mem_char c t.
Proof.
  induction s as [|a s IH]; simpl; [done|].
  destruct (decide (a = c)); [done|apply IH].
Qed.

Lemma replace_go_cons old new a s :
  replace_go old new 0 (String a s)
  = if String.prefix old (String a s)
    then match old with
         | EmptyString => new +:+ String a (replace_go old new 0 s)
         | String _ o => new +:+ replace_go old new (String.length o) s
         end
    else String a (replace_go old new 0 s).
Proof. reflexivity. Qed.

(** Replacing never brings in a character that neither the text nor
    the replacement holds. *)
Lemma replace_go_absent c old new skip s :
  mem_char c s = false → mem_char c new = false →
  mem_char c (replace_go old new skip s) = false.
Proof.
  intros Hs Hnew. revert skip Hs.
  induction s as [|a s IH]; intros skip Hs.
  - simpl. by destruct old.
  - simpl in Hs. destruct (decide (a = c)) as [|Hac]; [done|].
    destruct skip as [|k]; [|by apply IH].
    rewrite replace_go_cons.
    destruct (String.prefix old (String a s)).
    + destruct old; rewrite mem_char_app, Hnew; simpl.
      * rewrite decide_False by done. by apply IH.
      * by apply IH.
    + simpl. rewrite decide_False by done. by apply IH.
Qed.

Lemma prefix_char c a s :
  String.prefix (String c EmptyString) (String a s) = bool_decide (c = a).
Proof.
  simpl. destruct (ascii_dec c a).
  - rewrite bool_decide_eq_true_2 by done. by destruct s.
  - by rewrite bool_decide_eq_false_2.
Qed.

(** Replacing one character removes it. *)
Lemma replace_char_gone c new s :
  mem_char c new = false →
  mem_char c (replace (String c EmptyString) new s) = false.
Proof.
  intros Hnew. unfold replace.
  induction s as [|a s IH]; [done|].
  rewrite replace_go_cons, prefix_char. case_bool_decide as Hca.
  - by rewrite mem_char_app, Hnew.
  - simpl. rewrite decide_False by done. apply IH.
Qed.

(** A pattern that does not occur leaves the text as it is. *)
Lemma replace_no_occurrence old new s :
  old ≠ EmptyString → occurs old s = false → replace old new s = s.
Proof.
  intros Hold. unfold replace.
  induction s as [|a s IH]; intros Hocc.
  - by destruct old.
  - rewrite replace_go_cons. cbn [occurs] in Hocc.
    apply orb_false_iff in Hocc as [-> Hocc]. f_equal. by apply IH.
Qed.

Lemma occurs_char c s :
  occurs (String c EmptyString) s = mem_char c s.
Proof.
  induction s as [|a s IH]; [done|].
  cbn [occurs mem_char]. rewrite prefix_char, IH.
  case_bool_decide as Hca.
  - by rewrite decide_True.
  - by rewrite decide_False.
Qed.

Lemma replace_char_absent c new s :
  mem_char c s = false → replace (String c EmptyString) new s = s.
Proof.
  intros H. apply replace_no_occurrence; [done|]. by rewrite occurs_char.
Qed.

Lemma lower_char_idemp a : lower_char (lower_char a) = lower_char a.
Proof. destruct a as [[] [] [] [] [] [] [] []]; reflexivity. Qed.

Lemma lower_idemp s : lower (lower s) = lower s.
Proof.
  induction s as [|a s IH]; simpl; [done|].
  by rewrite lower_char_idemp, IH.
Qed.

Lemma lower_char_rewritten a c :
  rewritten c → lower_char a = c → a = c.
Proof.
  intros [->|[->|[->|[->| ->]]]];
    destruct a as [[] [] [] [] [] [] [] []]; vm_compute; congruence.
Qed.

Lemma lower_absent c s :
  rewritten c → mem_char c s = false → mem_char c (lower s) = false.
Proof.
  intros Hc. induction s as [|a s IH]; simpl; [done|].
  destruct (decide (a = c)) as [|Hac]; [done|]. intros Hs.
  rewrite decide_False; [by apply IH|].
  intros Heq. by apply Hac, lower_char_rewritten.
Qed.

End PyStrFacts.

(** ** sanitize_columns *)

Lemma build_new_cols_lookup (cols : list string) (m : gmap string string) c :
  foldl (fun m col => <[col := sanitize_name col]> m) m cols !! c
  = if decide (c ∈ cols) then Some (sanitize_name c) else m !! c.
Proof.
  revert m. induction cols as [|a cols IH]; intros m.
  - case_decide as Hin; [by apply elem_of_nil in Hin|done].
  - cbn [foldl]. rewrite IH.
    destruct (decide (c ∈ cols)) as [Hin|Hnin].
    + rewrite decide_True; [done|]. by right.
    + destruct (decide (c = a)) as [->|Hne].
      * rewrite decide_True by left. by rewrite lookup_insert_eq.
      * rewrite decide_False.
        -- by rewrite lookup_insert_ne.
        -- intros [?|?]%elem_of_cons; done.
Qed.

(** The loop and the rename together send every label through
    [sanitize_name]. *)
Lemma sanitize_columns_names st :
  columns (sanitize_columns st).1 = sanitize_name <$> columns (df st).
Proof.
  unfold sanitize_columns, rename, build_new_cols; simpl.
  apply list_fmap_ext. intros i c Hc.
  rewrite build_new_cols_lookup, decide_True; [done|].
  by eapply list_elem_of_lookup_2.
Qed.

Lemma sanitize_columns_state st :
  df (sanitize_columns st).2 = (sanitize_columns st).1.
Proof. reflexivity. Qed.

Lemma sanitize_columns_lookup st i c :
  columns (df st) !! i = Some c →
  columns (sanitize_columns st).1 !! i = Some (sanitize_name c).
Proof.
  intros Hc. by rewrite sanitize_columns_names, list_lookup_fmap, Hc.
Qed.

Lemma replace_absent c old new s :
  PyStr.mem_char c s = false → PyStr.mem_char c new = false →
  PyStr.mem_char c (PyStr.replace old new s) = false.
Proof. apply replace_go_absent. Qed.

(** No replaced or removed character is left in a sanitized name. *)
Lemma sanitize_name_clean c n :
  PyStr.rewritten c → PyStr.mem_char c (sanitize_name n) = false.
Proof.
  intros Hc. unfold sanitize_name. apply lower_absent; [done|].
  destruct Hc as [->|[->|[->|[->| ->]]]];
    repeat first
      [ apply replace_char_gone; reflexivity
      | apply replace_absent; [|reflexivity] ].
Qed.

(** A sanitized name that has no surrounding whitespace and no double
    underscore is a fixed point of [sanitize_name]. *)
Lemma sanitize_name_stable n :
  PyStr.strip (sanitize_name n) = sanitize_name n →
  PyStr.occurs "__" (sanitize_name n) = false →
  sanitize_name (sanitize_name n) = sanitize_name n.
Proof.
  intros Hstrip Hocc. unfold sanitize_name at 1. rewrite Hstrip.
  rewrite (replace_char_absent " " "_" (sanitize_name n)),
    (replace_char_absent "." "_" (sanitize_name n)),
    (replace_char_absent "-" "_" (sanitize_name n)),
    (replace_char_absent "(" "" (sanitize_name n)),
    (replace_char_absent ")" "" (sanitize_name n))
    by (apply sanitize_name_clean; unfold PyStr.rewritten; tauto).
  rewrite replace_no_occurrence by done.
  unfold sanitize_name. apply lower_idemp.
Qed.

(** *** C3 *)

(** C3, as worded, fails: the trailing period of the label becomes an
    underscore that nothing removes, so the new label is not
    "favorite_color_2023". *)
Lemma sanitize_favorite_color_not_bare :
  let st := init (mkDataFrame [" Favorite Color (2023)."] []) 0 in
  columns (df st) !! 0%nat = Some " Favorite Color (2023)." ∧
  columns (sanitize_columns st).1 !! 0%nat ≠ Some "favorite_color_2023".
Proof. split; [reflexivity|]. vm_compute. congruence. Qed.

(** C3 (amended): [sanitize_columns] on a table with a column labelled
    " Favorite Color (2023)." renames that column, in the returned table
    and in the held one, to exactly "favorite_color_2023_": whitespace is
    trimmed, spaces and the period become underscores, the parentheses
    are removed, no double underscore arises, the result is lowercased
    and keeps the underscore that stands for the final period. *)
Theorem sanitize_columns_favorite_color st i :
  columns (df st) !! i = Some " Favorite Color (2023)." →
  columns (sanitize_columns st).1 !! i = Some "favorite_color_2023_" ∧
  columns (df (sanitize_columns st).2) !! i = Some "favorite_color_2023_".
Proof.
  intros Hc. rewrite sanitize_columns_state.
  by rewrite (sanitize_columns_lookup _ _ _ Hc).
Qed.

Lemma sanitize_columns_favorite_color_witness :
  columns (sanitize_columns (init (mkDataFrame
    ["id"; " Favorite Color (2023)."] [[Some "7"; Some "red"]]) 1)).1 !! 1%nat
  = Some "favorite_color_2023_".
Proof.
  apply (sanitize_columns_favorite_color
           (init (mkDataFrame ["id"; " Favorite Color (2023)."]
                    [[Some "7"; Some "red"]]) 1) 1).
  reflexivity.
Defined.

(** *** C9 *)




(** *** C5 *)

(** C5, as worded, fails: a second application collapses the double
    underscore that the first one left, so the label sets differ. *)
Lemma sanitize_columns_twice_differs :
  let once := sanitize_columns (init (mkDataFrame ["a...b"] []) 0) in
  let twice := sanitize_columns once.2 in
  ¬ (∀ c, c ∈ columns twice.1 ↔ c ∈ columns once.1).
Proof.
  intros once twice H. specialize (H "a_b").
  assert (Hin : "a_b" ∈ columns twice.1) by (vm_compute; left).
  apply H in Hin. vm_compute in Hin.
  apply list_elem_of_singleton in Hin. discriminate Hin.
Qed.

(** C5 (amended): when every label produced by a first application has
    no surrounding whitespace and no double underscore, a second
    application in succession leaves the column labels exactly as the
    first one made them. *)
Theorem sanitize_columns_idempotent st :
  Forall (fun n => PyStr.strip n = n ∧ PyStr.occurs "__" n = false)
         (columns (sanitize_columns st).1) →
  columns (sanitize_columns (sanitize_columns st).2).1
  = columns (sanitize_columns st).1.
Proof.
  intros Hall. rewrite (sanitize_columns_names (sanitize_columns st).2).
  rewrite sanitize_columns_state.
  rewrite sanitize_columns_names in Hall |- *.
  rewrite <- list_fmap_compose.
  apply list_fmap_ext. intros i c Hc. simpl.
  apply Forall_fmap in Hall.
  destruct (proj1 (Forall_lookup _ _) Hall i c Hc) as [Hs Ho].
  simpl in Hs, Ho.
  by apply sanitize_name_stable.
Qed.

Lemma sanitize_columns_idempotent_witness :
  let st := init (mkDataFrame [" Favorite Color (2023)."; "Age-Group"] []) 0 in
  columns (sanitize_columns (sanitize_columns st).2).1
  = columns (sanitize_columns st).1.
Proof.
  apply (sanitize_columns_idempotent
           (init (mkDataFrame [" Favorite Color (2023)."; "Age-Group"] []) 0)).
  vm_compute. repeat constructor.
Defined.

(** ** float64 arithmetic *)

Lemma rint_bound (q : Q) : (Qabs (inject_Z (rint q) - q) <= 1 # 2)%Q.
Proof.
  unfold rint. pose proof (Qfloor_le q) as Hlo.
  pose proof (Qlt_floor q) as Hhi. rewrite inject_Z_plus in Hhi.
  change (inject_Z 1) with 1%Q in Hhi.
  apply Qabs_Qle_condition.
  destruct (Qcompare_spec (q - inject_Z (Qfloor q)) (1 # 2))
    as [Heq|Hlt|Hgt].
  - destruct (Z.even (Qfloor q)).
    + split; lra.
    + rewrite inject_Z_plus. change (inject_Z 1) with 1%Q. split; lra.
  - split; lra.
  - rewrite inject_Z_plus. change (inject_Z 1) with 1%Q. split; lra.
Qed.

Lemma two_pow_pos k : (0 < 2 ^ k)%Q.
Proof. apply Qpower_0_lt. reflexivity. Qed.

Lemma ilog2_lower q : (0 < q)%Q → (2 ^ ilog2 q <= q)%Q.
Proof.
  intros Hq. unfold ilog2.
  destruct (Qle_bool _ q) eqn:E; [by apply Qle_bool_iff|]. clear E.
  destruct q as [n d]. cbn [Qnum Qden].
  assert (0 < n)%Z as Hn by (unfold Qlt in Hq; simpl in Hq; lia).
  pose proof (Z.log2_spec n Hn) as [Hn1 _].
  pose proof (Z.log2_spec (Zpos d) (Pos2Z.is_pos d)) as [_ Hd2].
  pose proof (Z.log2_nonneg n). pose proof (Z.log2_nonneg (Zpos d)).
  replace (Z.log2 n - Z.log2 (Z.pos d) - 1)%Z
    with (Z.log2 n - Z.succ (Z.log2 (Z.pos d)))%Z by lia.
  rewrite Qpower_minus by discriminate.
  change 2%Q with (inject_Z 2).
  rewrite <- !Zpower_Qpower by lia.
  set (A := (2 ^ Z.log2 n)%Z) in *.
  set (B := (2 ^ Z.succ (Z.log2 (Z.pos d)))%Z) in *.
  assert (0 < A)%Z by (apply Z.pow_pos_nonneg; lia).
  rewrite (Qmake_Qdiv n d).
  apply Qle_shift_div_r.
  { change 0%Q with (inject_Z 0). rewrite <- Zlt_Qlt. lia. }
  unfold Qdiv. rewrite <- Qmult_assoc, (Qmult_comm (/ _)), Qmult_assoc.
  apply Qle_shift_div_l.
  { change 0%Q with (inject_Z 0). rewrite <- Zlt_Qlt. lia. }
  rewrite <- !inject_Z_mult, <- Zle_Qle. nia.
Qed.

Lemma ilog2_upper q : (0 < q)%Q → (q < 2 ^ (ilog2 q + 1))%Q.
Proof.
  intros Hq. unfold ilog2.
  destruct (Qle_bool _ q) eqn:E.
  - clear E. destruct q as [n d]. cbn [Qnum Qden].
    assert (0 < n)%Z as Hn by (unfold Qlt in Hq; simpl in Hq; lia).
    pose proof (Z.log2_spec n Hn) as [_ Hn2].
    pose proof (Z.log2_spec (Zpos d) (Pos2Z.is_pos d)) as [Hd1 _].
    pose proof (Z.log2_nonneg n). pose proof (Z.log2_nonneg (Zpos d)).
    replace (Z.log2 n - Z.log2 (Z.pos d) + 1)%Z
      with (Z.succ (Z.log2 n) - Z.log2 (Z.pos d))%Z by lia.
    rewrite Qpower_minus by discriminate.
    change 2%Q with (inject_Z 2).
    rewrite <- !Zpower_Qpower by lia.
    set (A := (2 ^ Z.succ (Z.log2 n))%Z) in *.
    set (B := (2 ^ Z.log2 (Z.pos d))%Z) in *.
    assert (0 < B)%Z by (apply Z.pow_pos_nonneg; lia).
    rewrite (Qmake_Qdiv n d).
    apply Qlt_shift_div_l.
    { change 0%Q with (inject_Z 0). rewrite <- Zlt_Qlt. lia. }
    unfold Qdiv. rewrite <- Qmult_assoc, (Qmult_comm (/ _)), Qmult_assoc.
    apply Qlt_shift_div_r.
    { change 0%Q with (inject_Z 0). rewrite <- Zlt_Qlt. lia. }
    rewrite <- !inject_Z_mult, <- Zlt_Qlt. nia.
  - replace (Z.log2 (Qnum q) - Z.log2 (Z.pos (Qden q)) - 1 + 1)%Z
      with (Z.log2 (Qnum q) - Z.log2 (Z.pos (Qden q)))%Z by lia.
    apply Qnot_le_lt. intros Hle. apply Qle_bool_iff in Hle. congruence.
Qed.

(** The significand that [fl_pos] rounds has 53 bits. *)
Lemma fl_pos_significand q :
  (0 < q)%Q →
  (2 ^ 52 <= q / 2 ^ (ilog2 q - 52))%Q ∧ (q / 2 ^ (ilog2 q - 52) < 2 ^ 53)%Q.
Proof.
  intros Hq. pose proof (ilog2_lower q Hq) as Hl.
  pose proof (ilog2_upper q Hq) as Hu.
  pose proof (two_pow_pos (ilog2 q - 52)) as He.
  rewrite Qpower_minus in * by discriminate.
  rewrite Qpower_plus in Hu by discriminate.
  pose proof (two_pow_pos (ilog2 q)) as Hk.
  set (K := (2 ^ ilog2 q)%Q) in *.
  change (2 ^ 52)%Q with (4503599627370496 # 1)%Q in *.
  change (2 ^ 53)%Q with (9007199254740992 # 1)%Q.
  change (2 ^ 1)%Q with 2%Q in Hu.
  clearbody K. split.
  - apply Qle_shift_div_l; [done|].
    assert ((4503599627370496 # 1) * (K / (4503599627370496 # 1)) == K)%Q
      as -> by field.
    done.
  - apply Qlt_shift_div_r; [done|].
    assert ((9007199254740992 # 1) * (K / (4503599627370496 # 1)) == K * 2)%Q
      as -> by field.
    done.
Qed.

Lemma rint_nonneg q : (0 <= q)%Q → (0 <= rint q)%Z.
Proof.
  intros Hq. pose proof (rint_bound q) as H.
  apply Qabs_Qle_condition in H.
  assert (-1 < rint q)%Z; [|lia]. rewrite Zlt_Qlt.
  change (inject_Z (-1)) with (-1)%Q. lra.
Qed.

Lemma fl_pos_error q :
  (0 < q)%Q →
  (0 <= fl_pos q)%Q ∧ (Qabs (fl_pos q - q) <= q * ulp2)%Q.
Proof.
  intros Hq. unfold fl_pos.
  pose proof (ilog2_lower q Hq) as Hk.
  set (k := ilog2 q) in *.
  pose proof (two_pow_pos (k - 52)) as HP.
  assert (HPk : (2 ^ (k - 52) == 2 ^ k * (1 # 4503599627370496))%Q).
  { rewrite Qpower_minus by discriminate. reflexivity. }
  set (P := (2 ^ (k - 52))%Q) in *. set (K := (2 ^ k)%Q) in *.
  assert (Hs : (q / P * P == q)%Q) by (field; lra).
  assert (0 <= q / P)%Q as Hs0.
  { apply Qle_shift_div_l; lra. }
  pose proof (rint_bound (q / P)) as Hr. apply Qabs_Qle_condition in Hr.
  pose proof (rint_nonneg _ Hs0) as Hr0. rewrite Zle_Qle in Hr0.
  change (inject_Z 0) with 0%Q in Hr0.
  set (r := inject_Z (rint (q / P))) in *. set (s := (q / P)%Q) in *.
  split.
  - apply Qmult_le_0_compat; lra.
  - assert (r * P - q == (r - s) * P)%Q as -> by (rewrite <- Hs at 1; ring).
    assert ((r - s) * P <= (1 # 2) * P)%Q
      by (apply Qmult_le_compat_r; lra).
    assert ((- (1 # 2)) * P <= (r - s) * P)%Q
      by (apply Qmult_le_compat_r; lra).
    apply Qabs_Qle_condition. unfold ulp2. split; lra.
Qed.

Lemma fl_error q :
  (Qabs (fl q - q) <= Qabs q * ulp2)%Q ∧
  (0 <= q → 0 <= fl q)%Q ∧ (q <= 0 → fl q <= 0)%Q.
Proof.
  unfold fl. cbv zeta. rewrite Qred_correct.
  pose proof (Qred_correct q) as Hq.
  remember (Qred q) as q' eqn:E. clear E. rewrite <- Hq. clear Hq q.
  destruct (Qcompare_spec q' 0) as [H0|Hlt|Hgt].
  - rewrite H0. repeat split; try lra. vm_compute. discriminate.
  - assert (0 < - q')%Q as Hp by lra.
    destruct (fl_pos_error _ Hp) as [Hnn Herr].
    apply Qabs_Qle_condition in Herr.
    rewrite (Qabs_neg q') by lra.
    split; [apply Qabs_Qle_condition; split; lra|]. split; intros; lra.
  - destruct (fl_pos_error _ Hgt) as [Hnn Herr].
    apply Qabs_Qle_condition in Herr.
    rewrite (Qabs_pos q') by lra.
    split; [apply Qabs_Qle_condition; split; lra|]. split; intros; lra.
Qed.

(** The quotient of two rounded non-negative numbers. *)
Lemma quot_bounds (c t c' t' : Q) :
  (0 <= c)%Q → (0 < t)%Q →
  (Qabs (c' - c) <= c * ulp2)%Q → (Qabs (t' - t) <= t * ulp2)%Q →
  (0 <= c' / t')%Q ∧
  (Qabs (c' / t' - c / t) <= (c / t) * (3 # 9007199254740992))%Q.
Proof.
  intros Hc Ht Hc' Ht'.
  apply Qabs_Qle_condition in Hc'. apply Qabs_Qle_condition in Ht'.
  unfold ulp2 in *.
  assert (0 < t')%Q as Htp by lra.
  assert (0 <= c / t)%Q as Ha0 by (apply Qle_shift_div_l; lra).
  assert (c / t * t == c)%Q as Hct' by (field; lra).
  set (a := (c / t)%Q) in *.
  assert (t' * a <= (t * (1 + (1 # 9007199254740992))) * a)%Q as H1
    by (apply Qmult_le_compat_r; lra).
  assert ((t * (1 - (1 # 9007199254740992))) * a <= t' * a)%Q as H2
    by (apply Qmult_le_compat_r; lra).
  split; [apply Qle_shift_div_l; lra|].
  apply Qabs_Qle_condition. split.
  - assert (a * (1 - (3 # 9007199254740992)) <= c' / t')%Q; [|lra].
    apply Qle_shift_div_l; [done|]. lra.
  - assert (c' / t' <= a * (1 + (3 # 9007199254740992)))%Q; [|lra].
    apply Qle_shift_div_r; [done|]. lra.
Qed.

Lemma fl_int_zero (z : Z) : Qeq_bool (fl (inject_Z z)) 0 = bool_decide (z = 0%Z).
Proof.
  case_bool_decide as Hz.
  - by subst.
  - destruct (Qeq_bool _ 0) eqn:E; [|done]. apply Qeq_bool_eq in E.
    destruct (fl_error (inject_Z z)) as [Herr _]. rewrite E in Herr.
    apply Qabs_Qle_condition in Herr. unfold ulp2 in Herr.
    assert (~ inject_Z z == 0)%Q as Hnz.
    { intros H0. apply Hz. unfold Qeq in H0. simpl in H0. lia. }
    destruct (Qlt_le_dec (inject_Z z) 0).
    + rewrite (Qabs_neg (inject_Z z)) in Herr by lra. lra.
    + rewrite (Qabs_pos (inject_Z z)) in Herr by lra. lra.
Qed.

Lemma fl_int_pos (z : Z) : (0 < z)%Z → Qneg (fl (inject_Z z)) = false.
Proof.
  intros Hz. destruct (fl_error (inject_Z z)) as (_ & Hnn & _).
  assert (0 <= fl (inject_Z z))%Q as H.
  { apply Hnn. change 0%Q with (inject_Z 0). rewrite <- Zle_Qle. lia. }
  unfold Qneg. destruct (Qcompare_spec (fl (inject_Z z)) 0); try done. lra.
Qed.

Lemma percent_zero_denominator (c : Z) :
  (0 <= c)%Z → percent c 0 = if decide (c = 0%Z) then NaN else PInf.
Proof.
  intros Hc. unfold percent, fdiv, of_int.
  rewrite (fl_int_zero 0), (fl_int_zero c).
  rewrite bool_decide_eq_true_2 by done.
  case_decide as Hz.
  - by rewrite bool_decide_eq_true_2.
  - rewrite bool_decide_eq_false_2 by done.
    by rewrite fl_int_pos by lia.
Qed.

Lemma percent_finite (c t : Z) : t ≠ 0%Z → is_finite (percent c t) = true.
Proof.
  intros Ht. unfold percent, fdiv, of_int.
  by rewrite (fl_int_zero t), bool_decide_eq_false_2.
Qed.

Lemma fl_error_nonneg q :
  (0 <= q)%Q →
  (0 <= fl q)%Q ∧ (q * (1 - ulp2) <= fl q)%Q ∧ (fl q <= q * (1 + ulp2))%Q.
Proof.
  intros Hq. destruct (fl_error q) as (Herr & Hnn & _).
  rewrite (Qabs_pos q Hq) in Herr. apply Qabs_Qle_condition in Herr.
  split; [by apply Hnn|]. split; lra.
Qed.

(** The value of a percentage with a non-negative count and a positive
    denominator. *)
Lemma percent_spec (c t : Z) :
  (0 <= c)%Z → (0 < t)%Z →
  ∃ n : Z,
    percent c t = Fin (fl (inject_Z n / 100)) ∧ (0 <= n)%Z ∧
    (Qabs (inject_Z n - 10000 * (inject_Z c / inject_Z t))
     <= (1 # 2) + (inject_Z c / inject_Z t) * (1 # 10000000000))%Q.
Proof.
  intros Hc Ht.
  assert (0 <= inject_Z c)%Q as Hcq
    by (change 0%Q with (inject_Z 0); by rewrite <- Zle_Qle).
  assert (0 < inject_Z t)%Q as Htq
    by (change 0%Q with (inject_Z 0); by rewrite <- Zlt_Qlt).
  unfold percent, fdiv, of_int.
  rewrite (fl_int_zero t), bool_decide_eq_false_2 by lia.
  cbn [fmul round2].
  change (fl (inject_Z 100)) with 100%Q.
  destruct (fl_error (inject_Z c)) as (Hce & _).
  destruct (fl_error (inject_Z t)) as (Hte & _).
  rewrite (Qabs_pos _ Hcq) in Hce.
  rewrite (Qabs_pos (inject_Z t)) in Hte by lra.
  destruct (quot_bounds _ _ _ _ Hcq Htq Hce Hte) as (Ha0 & Hae).
  apply Qabs_Qle_condition in Hae.
  assert (0 <= inject_Z c / inject_Z t)%Q as HA0
    by (apply Qle_shift_div_l; lra).
  set (A := (inject_Z c / inject_Z t)%Q) in *.
  set (a := (fl (inject_Z c) / fl (inject_Z t))%Q) in *.
  destruct (fl_error_nonneg a Ha0) as (Hx0 & Hx1 & Hx2).
  set (x1 := fl a) in *.
  assert (0 <= x1 * 100)%Q as Hm0 by lra.
  destruct (fl_error_nonneg _ Hm0) as (Hy0 & Hy1 & Hy2).
  set (x2 := fl (x1 * 100)) in *.
  assert (0 <= x2 * 100)%Q as Hm1 by lra.
  destruct (fl_error_nonneg _ Hm1) as (Hz0 & Hz1 & Hz2).
  set (y := fl (x2 * 100)) in *.
  pose proof (rint_bound y) as Hr. apply Qabs_Qle_condition in Hr.
  pose proof (rint_nonneg y Hz0) as Hn0.
  exists (rint y). split; [done|]. split; [done|].
  unfold ulp2 in *. apply Qabs_Qle_condition. split; lra.
Qed.

Lemma percent_value (c t : Z) :
  (0 <= c <= t)%Z → (0 < t)%Z →
  ∃ p,
    percent c t = Fin p ∧ (0 <= p)%Q ∧ (p <= 100)%Q ∧
    (Qabs (p - 100 * (inject_Z c / inject_Z t)) <= 1 # 100)%Q.
Proof.
  intros [Hc Hct] Ht.
  destruct (percent_spec c t Hc Ht) as (n & Hp & Hn0 & Hn).
  assert (0 < inject_Z t)%Q as Htq
    by (change 0%Q with (inject_Z 0); by rewrite <- Zlt_Qlt).
  assert (0 <= inject_Z c / inject_Z t)%Q as HA0.
  { apply Qle_shift_div_l; [lra|]. rewrite Qmult_0_l.
    change 0%Q with (inject_Z 0). by rewrite <- Zle_Qle. }
  assert (inject_Z c / inject_Z t <= 1)%Q as HA1.
  { apply Qle_shift_div_r; [lra|]. rewrite Qmult_1_l. by rewrite <- Zle_Qle. }
  set (A := (inject_Z c / inject_Z t)%Q) in *.
  apply Qabs_Qle_condition in Hn.
  assert (n <= 10000)%Z as Hn1.
  { assert (n < 10001%Z)%Z; [|lia]. rewrite Zlt_Qlt.
    change (inject_Z 10001) with 10001%Q. lra. }
  exists (fl (inject_Z n / 100)). split; [done|].
  assert (0 <= inject_Z n / 100)%Q as Hq0.
  { rewrite Zle_Qle in Hn0. change (inject_Z 0) with 0%Q in Hn0.
    unfold Qdiv. change (/ 100)%Q with (1 # 100)%Q. lra. }
  destruct (fl_error_nonneg _ Hq0) as (Hp0 & Hp1 & Hp2).
  split; [done|]. split.
  - destruct (Z.eq_dec n 10000%Z) as [->|Hne].
    + vm_compute. discriminate.
    + assert (n <= 9999)%Z as H9 by lia.
      rewrite Zle_Qle in H9. change (inject_Z 9999%Z) with 9999%Q in H9.
      set (p := fl (inject_Z n / 100)) in *.
      unfold ulp2, Qdiv in *. change (/ 100)%Q with (1 # 100)%Q in *. lra.
  - rewrite Zle_Qle in Hn1. change (inject_Z 10000%Z) with 10000%Q in Hn1.
    set (p := fl (inject_Z n / 100)) in *.
    apply Qabs_Qle_condition.
    unfold ulp2, Qdiv in *. change (/ 100)%Q with (1 # 100)%Q in *.
    split; lra.
Qed.

(** ** Grouping *)

Lemma groupby_elem locs rows g :
  g ∈ groupby locs rows ↔
  g.1 ∈ omap (row_key locs) rows ∧
  g.2 = filter (fun r => row_key locs r = Some g.1) rows.
Proof.
  unfold groupby. rewrite list_elem_of_fmap. split.
  - intros (k & -> & Hk). simpl. split; [|done].
    rewrite merge_sort_Permutation in Hk. by apply elem_of_remove_dups.
  - intros [Hk Hg]. exists g.1. split.
    + destruct g as [k rs]. simpl in *. by subst.
    + rewrite merge_sort_Permutation. by apply elem_of_remove_dups.
Qed.

(** Every group holds at least one row. *)
Lemma groupby_nonempty locs rows g :
  g ∈ groupby locs rows → (0 < length g.2)%nat.
Proof.
  intros [Hk ->]%groupby_elem.
  apply list_elem_of_omap in Hk as (r & Hr & Hkey).
  assert (Hin : r ∈ filter (fun r => row_key locs r = Some g.1) rows)
    by by apply list_elem_of_filter.
  destruct (filter _ rows); [by apply elem_of_nil in Hin|simpl; lia].
Qed.

(** A row whose key cells are all present falls into a group. *)
Lemma groupby_covers locs rows r k :
  r ∈ rows → row_key locs r = Some k →
  ∃ g, g ∈ groupby locs rows ∧ g.1 = k.
Proof.
  intros Hr Hk.
  exists (k, filter (fun r => row_key locs r = Some k) rows).
  split; [|done]. apply groupby_elem. split; [|done].
  apply list_elem_of_omap. eauto.
Qed.

Lemma groupby_keys_NoDup locs rows : NoDup (groupby locs rows).*1.
Proof.
  unfold groupby. rewrite <- list_fmap_compose.
  erewrite list_fmap_ext; [rewrite list_fmap_id|by intros].
  rewrite merge_sort_Permutation. apply NoDup_remove_dups.
Qed.

Lemma mapM_result_app {A B} (f : A → result B) l1 l2 l :
  mapM f (l1 ++ l2) = Ok l →
  ∃ l1' l2', mapM f l1 = Ok l1' ∧ mapM f l2 = Ok l2' ∧ l = l1' ++ l2'.
Proof.
  revert l. induction l1 as [|a l1 IH]; intros l H.
  - exists [], l. by repeat split.
  - change ((a :: l1) ++ l2) with (a :: (l1 ++ l2)) in H.
    cbn [mapM] in H. bind_inv H b Hb. bind_inv H bs Hbs.
    injection H as <-. destruct (IH _ eq_refl) as (l1' & l2' & H1 & H2 & ->).
    exists (b :: l1'), l2'. cbn [mapM]. rewrite Hb, H1. by repeat split.
Qed.

Lemma groupby_labels_elem labels rows g :
  g ∈ groupby_labels labels rows ↔
  g.1 ∈ (fun l => [l]) <$> labels ∧
  g.2 = (filter (fun lr => [lr.1] = g.1) (zip labels rows)).*2.
Proof.
  unfold groupby_labels. rewrite list_elem_of_fmap. split.
  - intros (k & -> & Hk). simpl. split; [|done].
    rewrite merge_sort_Permutation in Hk. by apply elem_of_remove_dups.
  - intros [Hk Hg]. exists g.1. split.
    + destruct g as [k rs]. simpl in *. by subst.
    + rewrite merge_sort_Permutation. by apply elem_of_remove_dups.
Qed.

Lemma groupby_labels_keys_NoDup labels rows :
  NoDup (groupby_labels labels rows).*1.
Proof.
  unfold groupby_labels. rewrite <- list_fmap_compose.
  erewrite list_fmap_ext; [rewrite list_fmap_id|by intros].
  rewrite merge_sort_Permutation. apply NoDup_remove_dups.
Qed.

(** The two ways in which [resolve_keys] succeeds. *)
Lemma resolve_keys_inv loc cols (rows : list (list cell)) keys g :
  resolve_keys loc cols rows keys = Ok g →
  (∃ locs, mapM loc keys = Ok locs ∧ g = ByColumns locs) ∨
  (g = ByLabels keys ∧ length keys = length rows ∧
   ¬ Forall (fun k => k ∈ cols) keys).
Proof.
  unfold resolve_keys. case_decide as Hd.
  - intros [= <-]. right. by destruct Hd.
  - intros H. bind_inv H locs Hl. injection H as <-. left. eauto.
Qed.

(** Keys that are all column labels are resolved as columns. *)
Lemma resolve_keys_columns loc cols (rows : list (list cell)) keys :
  Forall (fun k => k ∈ cols) keys →
  resolve_keys loc cols rows keys = (locs ← mapM loc keys; Ok (ByColumns locs)).
Proof.
  intros Hall. unfold resolve_keys. case_decide as Hd; [|done].
  by destruct Hd as [_ []].
Qed.

Lemma positions_elem label cols i n :
  n ∈ positions label cols i → label ∈ cols.
Proof.
  revert i. induction cols as [|c cols IH]; intros i; simpl.
  - by intros ?%elem_of_nil.
  - case_decide as Hc.
    + intros _. subst. apply list_elem_of_here.
    + intros H. apply list_elem_of_further. eauto.
Qed.

Lemma get_loc_present cols label i : get_loc cols label = Ok i → label ∈ cols.
Proof.
  unfold get_loc. destruct (positions label cols 0) as [|n [|m l]] eqn:Hp;
    [done| |done].
  intros _. apply (positions_elem label cols 0%nat n). rewrite Hp.
  apply list_elem_of_here.
Qed.

Lemma mapM_get_loc_present cols keys locs :
  mapM (get_loc cols) keys = Ok locs → Forall (fun k => k ∈ cols) keys.
Proof.
  revert locs. induction keys as [|k keys IH]; intros locs H; [done|].
  cbn [mapM] in H. bind_inv H i Hi. bind_inv H l Hl.
  constructor; [by eapply get_loc_present|by eapply IH].
Qed.

(** The rows of a group are rows of the table. *)
Lemma groups_rows g (rows : list (list cell)) grp r :
  grp ∈ groups g rows → r ∈ grp.2 → r ∈ rows.
Proof.
  destruct g as [locs|labels]; simpl.
  - intros [_ ->]%groupby_elem. by intros [_ ?]%list_elem_of_filter.
  - intros [_ ->]%groupby_labels_elem.
    intros ([l r'] & -> & [_ Hin]%list_elem_of_filter)%list_elem_of_fmap.
    simpl. by eapply elem_of_zip_r.
Qed.

(** Every group holds at least one row. *)
Lemma groups_nonempty loc cols (rows : list (list cell)) keys g grp :
  resolve_keys loc cols rows keys = Ok g →
  grp ∈ groups g rows → (0 < length grp.2)%nat.
Proof.
  intros [(locs & _ & ->)|(-> & Hlen & _)]%resolve_keys_inv; simpl.
  - apply groupby_nonempty.
  - intros [Hk ->]%groupby_labels_elem.
    apply list_elem_of_fmap in Hk as (l & Hk & Hl).
    apply list_elem_of_lookup in Hl as [i Hi].
    destruct (lookup_lt_is_Some_2 rows i) as [r Hr].
    { rewrite <- Hlen. by eapply lookup_lt_Some. }
    assert (Hin : r ∈ (filter (fun lr => [lr.1] = grp.1) (zip keys rows)).*2).
    { apply list_elem_of_fmap. exists (l, r). split; [done|].
      apply list_elem_of_filter. split; [done|].
      apply list_elem_of_lookup. exists i.
      by rewrite lookup_zip_with, Hi, Hr. }
    destruct (_.*2); [by apply elem_of_nil in Hin|simpl; lia].
Qed.

Lemma groups_keys_NoDup g (rows : list (list cell)) : NoDup (groups g rows).*1.
Proof.
  destruct g; [apply groupby_keys_NoDup|apply groupby_labels_keys_NoDup].
Qed.

(** A table without rows has no group. *)
Lemma groups_nil loc cols keys g :
  resolve_keys loc cols [] keys = Ok g → groups g [] = [].
Proof.
  intros [(locs & _ & ->)|(-> & Hlen & _)]%resolve_keys_inv; simpl.
  - done.
  - by destruct keys.
Qed.

(** [sort_values] on a frame whose index has no named level accepts
    value columns only. *)
Lemma check_sort_label_unnamed value_cols label u :
  check_sort_label [] value_cols label = Ok u → label ∈ value_cols.
Proof. unfold check_sort_label. simpl. by case_decide. Qed.

(** ** multi_response_analysis *)

(** What a successful call went through. *)
Lemma multi_response_analysis_inv st q_list group_cols res :
  multi_response_analysis st q_list group_cols = Ok res →
  ∃ qloc g rloc,
    get_loc (columns (df st)) (question_col st) = Ok qloc ∧
    resolve_keys (get_loc (columns (df st))) (columns (df st))
      (filter_isin qloc q_list (data (df st)))
      (group_cols ++ [question_col st; subquest_col st]) = Ok g ∧
    select_column (columns (df st)) (respondent_col st) = Ok rloc ∧
    (Z.abs (total_respondents st) < 2 ^ 1024 - 2 ^ 970)%Z ∧
    is_ok (mapM (check_sort_label
                   (index_names g
                      (group_cols ++ [question_col st; subquest_col st]))
                   ["Response Count"; "Percentage (%)"])
             (group_cols ++ [question_col st; subquest_col st])) = true ∧
    res ≡ₚ
      (fun grp =>
         let c := nunique ((fun r => at_loc r rloc) <$> grp.2) in
         mkEntry grp.1 c (percent c (total_respondents st)))
      <$> groups g (filter_isin qloc q_list (data (df st))).
Proof.
  unfold multi_response_analysis, float_scalar. intros H. cbv zeta in H.
  bind_inv H qloc Hq. bind_inv H g Hg. bind_inv H rloc Hr.
  case_decide as Ht; [|done]. cbn [mbind result_bind] in H.
  bind_inv H u Hu. injection H as <-.
  exists qloc, g, rloc. do 3 (split; [done|]). split; [exact Ht|].
  split; [by rewrite Hu|]. rewrite <- list_fmap_compose.
  destruct g; by rewrite merge_sort_Permutation.
Qed.

(** On an index without named levels the final sort of
    [multi_response_analysis] fails unless the question label names a
    value column. *)
Lemma multi_response_sort_unnamed (group_cols : list string) q sq e :
  q ∉ ["Response Count"; "Percentage (%)"] →
  mapM (check_sort_label [] ["Response Count"; "Percentage (%)"])
       (group_cols ++ [q; sq]) ≠ Ok e.
Proof.
  intros Hq Hus.
  apply mapM_result_app in Hus as (us1 & us2 & _ & Hus2 & _).
  cbn [mapM] in Hus2. bind_inv Hus2 u Hu.
  by apply check_sort_label_unnamed in Hu.
Qed.

(** Unless the question column is named like one of the two value
    columns of the result, a successful call has read every grouping
    key as a column. *)
Lemma multi_response_analysis_by_columns st q_list group_cols res :
  question_col st ∉ ["Response Count"; "Percentage (%)"] →
  multi_response_analysis st q_list group_cols = Ok res →
  ∃ qloc locs rloc,
    get_loc (columns (df st)) (question_col st) = Ok qloc ∧
    mapM (get_loc (columns (df st)))
         (group_cols ++ [question_col st; subquest_col st]) = Ok locs ∧
    select_column (columns (df st)) (respondent_col st) = Ok rloc ∧
    res ≡ₚ
      (fun g =>
         let c := nunique ((fun r => at_loc r rloc) <$> g.2) in
         mkEntry g.1 c (percent c (total_respondents st)))
      <$> groupby locs (filter_isin qloc q_list (data (df st))).
Proof.
  intros Hq
    (qloc & g & rloc & Hqloc & Hg & Hr & _ & Hs & Hperm)%multi_response_analysis_inv.
  apply resolve_keys_inv in Hg as [(locs & Hl & ->)|(-> & _ & _)].
  { exists qloc, locs, rloc. by repeat split. }
  exfalso. simpl in Hs.
  destruct (mapM _ _) as [us|] eqn:Hus; [|done].
  by apply multi_response_sort_unnamed in Hus.
Qed.

(** [nunique] is the size of any duplicate-free enumeration of the
    values present. *)
Lemma nunique_enumeration (cells : list cell) (ids : list string) :
  NoDup ids → (∀ x, x ∈ ids ↔ Some x ∈ cells) →
  nunique cells = Z.of_nat (length ids).
Proof.
  intros Hnd Hids. unfold nunique. f_equal.
  apply Permutation_length, NoDup_Permutation;
    [apply NoDup_remove_dups|done|].
  intros x. rewrite elem_of_remove_dups, list_elem_of_omap, Hids.
  split; [|eauto]. intros (c & Hc & Heq). simpl in Heq. by subst.
Qed.

(** [nunique] grows with the set of values. *)
Lemma nunique_mono (cells1 cells2 : list cell) :
  (∀ x, Some x ∈ cells1 → Some x ∈ cells2) →
  (nunique cells1 ≤ nunique cells2)%Z.
Proof.
  intros Hsub. unfold nunique. apply inj_le, submseteq_length.
  apply NoDup_submseteq; [apply NoDup_remove_dups|].
  intros x. rewrite !elem_of_remove_dups, !list_elem_of_omap.
  intros (c & Hc & Heq). simpl in Heq. subst c.
  exists (Some x). split; [|done]. by apply Hsub.
Qed.

(** *** C2 *)

(** C2: in the table returned by [multi_response_analysis] every row
    stands for one group of the filtered rows; its count is the number
    of distinct respondent identifiers carried by the rows of that group
    (the size of any duplicate-free enumeration of them, however many
    rows repeat an identifier), and its percentage is that count divided
    by [total_respondents], times 100, rounded to two decimals, all in
    float64: for a positive [total_respondents] it is the float64
    nearest to [n / 100] for an integer [n] within one half (and the
    float64 error of the quotient) of 10000 times the exact ratio.
    Unless the question column is named like a value column of the
    result, the groups are those of the grouping columns: the rows of a
    group are the filtered rows that carry its key.  On the three-row
    scenario with [total_respondents = 4] the result is
    count 2, percentage 50.00 for (Q1, S1) and count 1, percentage 25.00
    for (Q1, S2); 7 respondents out of 20000 give 0.03, the float64
    product being just below 0.035. *)
Theorem multi_response_counts_distinct_respondents :
  (∀ st q_list group_cols res e,
     multi_response_analysis st q_list group_cols = Ok res → e ∈ res →
     Percentage e
     = round2 (fmul (fdiv (of_int (Count e)) (of_int (total_respondents st)))
                    (of_int 100)) ∧
     ((0 < total_respondents st)%Z →
      ∃ n : Z,
        Percentage e = f64 (inject_Z n / 100) ∧
        (Qabs (inject_Z n
               - 10000 * (inject_Z (Count e) / inject_Z (total_respondents st)))
         <= (1 # 2)
            + (inject_Z (Count e) / inject_Z (total_respondents st))
              * (1 # 10000000000))%Q) ∧
     ∃ qloc g rloc rows,
       get_loc (columns (df st)) (question_col st) = Ok qloc ∧
       resolve_keys (get_loc (columns (df st))) (columns (df st))
         (filter_isin qloc q_list (data (df st)))
         (group_cols ++ [question_col st; subquest_col st]) = Ok g ∧
       select_column (columns (df st)) (respondent_col st) = Ok rloc ∧
       (key e, rows) ∈ groups g (filter_isin qloc q_list (data (df st))) ∧
       ∀ ids : list string,
         NoDup ids →
         (∀ x, x ∈ ids ↔ ∃ r, r ∈ rows ∧ at_loc r rloc = Some x) →
         Count e = Z.of_nat (length ids)) ∧
  (∀ st q_list group_cols res e,
     question_col st ∉ ["Response Count"; "Percentage (%)"] →
     multi_response_analysis st q_list group_cols = Ok res → e ∈ res →
     ∃ qloc locs rloc,
       get_loc (columns (df st)) (question_col st) = Ok qloc ∧
       mapM (get_loc (columns (df st)))
            (group_cols ++ [question_col st; subquest_col st]) = Ok locs ∧
       select_column (columns (df st)) (respondent_col st) = Ok rloc ∧
       ∀ ids : list string,
         NoDup ids →
         (∀ x, x ∈ ids ↔
               ∃ r, r ∈ data (df st) ∧
                    isin q_list (at_loc r qloc) = true ∧
                    row_key locs r = Some (key e) ∧
                    at_loc r rloc = Some x) →
         Count e = Z.of_nat (length ids)) ∧
  multi_response_analysis scenario ["Q1"] []
  = Ok [ mkEntry ["Q1"; "S1"] 2 (f64 50);
         mkEntry ["Q1"; "S2"] 1 (f64 25) ] ∧
  multi_response_analysis seven_of_20000 ["Q1"] []
  = Ok [ mkEntry ["Q1"; "S1"] 7 (f64 (3 # 100)) ].
Proof.
  split; [|split; [|split; by vm_compute]].
  - intros st q_list group_cols res e Hres He.
    apply multi_response_analysis_inv in Hres
      as (qloc & g & rloc & Hq & Hg & Hr & _ & _ & Hperm).
    rewrite Hperm in He.
    apply list_elem_of_fmap in He as (grp & -> & Hgrp).
    cbn [Count Percentage key].
    split; [done|]. split.
    { intros Ht.
      destruct (percent_spec (nunique ((fun r => at_loc r rloc) <$> grp.2))
                  (total_respondents st)) as (n & Hn & _ & Hb);
        [unfold nunique; lia|done|].
      exists n. by split. }
    exists qloc, g, rloc, grp.2. do 3 (split; [done|]).
    split; [by destruct grp|].
    intros ids Hnd Hids. apply nunique_enumeration; [done|].
    intros x. rewrite Hids, list_elem_of_fmap. split.
    + intros (r & Hr1 & Hr2). eauto.
    + intros (r & Hx & Hin). eauto.
  - intros st q_list group_cols res e Hname Hres He.
    destruct (multi_response_analysis_by_columns _ _ _ _ Hname Hres)
      as (qloc & locs & rloc & Hq & Hl & Hr & Hperm).
    rewrite Hperm in He.
    apply list_elem_of_fmap in He as (g & -> & Hg). simpl.
    exists qloc, locs, rloc. do 3 (split; [done|]).
    intros ids Hnd Hids. apply nunique_enumeration; [done|].
    intros x. rewrite Hids.
    apply groupby_elem in Hg as [_ ->].
    rewrite list_elem_of_fmap. split.
    + intros (r & Hr1 & Hr2 & Hr3 & Hr4). exists r. split; [done|].
      apply list_elem_of_filter. split; [done|].
      by apply list_elem_of_filter.
    + intros (r & Hx & [Hk [Hi Hd]%list_elem_of_filter]%list_elem_of_filter).
      eauto 10.
Qed.

Lemma multi_response_counts_distinct_respondents_witness :
  let e := mkEntry ["Q1"; "S1"] 7 (f64 (3 # 100)) in
  ∃ n : Z,
    Percentage e = f64 (inject_Z n / 100) ∧
    (Qabs (inject_Z n - 10000 * (inject_Z (Count e) / inject_Z 20000))
     <= (1 # 2) + (inject_Z (Count e) / inject_Z 20000) * (1 # 10000000000))%Q.
Proof.
  refine (proj1 (proj2 (proj1 multi_response_counts_distinct_respondents
                          seven_of_20000 ["Q1"] [] _
                          (mkEntry ["Q1"; "S1"] 7 (f64 (3 # 100))) _ _)) _).
  - vm_compute. reflexivity.
  - left.
  - vm_compute. reflexivity.
Defined.

(** *** C7 *)

(** C7, as worded, fails in its second half: [total_respondents] is
    whatever the constructor was given, and a count can exceed it. *)
Lemma response_count_exceeds_total :
  let st := init scenario_table 1 in
  ∃ res e,
    multi_response_analysis st ["Q1"] [] = Ok res ∧ e ∈ res ∧
    ¬ (Count e ≤ total_respondents st)%Z.
Proof.
  eexists _, (mkEntry ["Q1"; "S1"] 2 _).
  split; [by vm_compute|]. split; [left|]. simpl. lia.
Qed.

(** C7 (amended): whenever [multi_response_analysis] succeeds, each
    'Response Count' of its result is at most the number of distinct
    respondent identifiers of the filtered table as a whole; it is at
    most [total_respondents] as soon as [total_respondents] is not below
    that number, which the code does not enforce. *)
Theorem response_count_bounded st q_list group_cols res :
  multi_response_analysis st q_list group_cols = Ok res →
  ∃ n, filtered_respondents st q_list = Ok n ∧
       ∀ e, e ∈ res →
            (Count e ≤ n)%Z ∧
            ((n ≤ total_respondents st)%Z →
             (Count e ≤ total_respondents st)%Z).
Proof.
  intros (qloc & g & rloc & Hq & Hg & Hr & _ & _ & Hperm)%multi_response_analysis_inv.
  eexists. split.
  { unfold filtered_respondents. rewrite Hq. simpl. rewrite Hr. done. }
  intros e He. rewrite Hperm in He.
  apply list_elem_of_fmap in He as (grp & -> & Hgrp). simpl.
  assert (nunique ((fun r => at_loc r rloc) <$> grp.2)
          ≤ nunique ((fun r => at_loc r rloc)
                       <$> filter_isin qloc q_list (data (df st))))%Z as Hle.
  { apply nunique_mono. intros x.
    rewrite !list_elem_of_fmap. intros (r & Hx & Hin). exists r.
    split; [done|]. by eapply groups_rows. }
  split; [done|lia].
Qed.

Lemma response_count_bounded_witness :
  ∃ n, filtered_respondents scenario ["Q1"] = Ok n ∧
       ∀ e, e ∈ [ mkEntry ["Q1"; "S1"] 2 (Fin (50 # 1));
                  mkEntry ["Q1"; "S2"] 1 (Fin (25 # 1)) ] →
            (Count e ≤ n)%Z ∧
            ((n ≤ total_respondents scenario)%Z →
             (Count e ≤ total_respondents scenario)%Z).
Proof.
  apply (response_count_bounded scenario ["Q1"] []). by vm_compute.
Defined.

(** *** C10 *)

(** A row that carries every grouping label has a group key. *)
Lemma row_key_present d (r : list cell) labels locs :
  mapM (get_loc (columns d)) labels = Ok locs →
  Forall (fun l => ∃ v, cell_at d r l v) labels →
  ∃ k, row_key locs r = Some k.
Proof.
  revert locs. induction labels as [|l labels IH]; intros locs Hm Hall.
  - injection Hm as <-. by exists [].
  - cbn [mapM] in Hm. bind_inv Hm i Hi. bind_inv Hm locs' Hl.
    injection Hm as <-.
    apply Forall_cons in Hall as [(v & j & Hj & Hv) Hall].
    destruct (IH locs' eq_refl Hall) as [k Hk].
    assert (j = i) as -> by congruence.
    exists (v :: k). unfold row_key in *. cbn [mapM].
    rewrite Hv. simpl. by rewrite Hk.
Qed.

Lemma cell_at_present d (r : list cell) labels :
  Forall (fun l => ∃ v, cell_at d r l v) labels →
  Forall (fun l => l ∈ columns d) labels.
Proof.
  intros H. eapply Forall_impl; [exact H|].
  intros l (v & i & Hi & _). by eapply get_loc_present.
Qed.

(** C10: [multi_response_analysis] has no guard on [total_respondents].
    Whether a call raises does not depend on the total as long as the
    total fits int64 (one beyond the range of float64 makes the division
    itself raise an [OverflowError]); on an instance with [total_respondents = 0] every
    percentage of the result is the outcome of a division by zero, hence
    not a finite number (nan for a zero count, infinite otherwise), and
    the result has such a row as soon as one row with its question in
    [q_list] carries all grouping values; with any non-zero total every
    percentage is finite. *)
Theorem multi_response_zero_total st q_list group_cols :
  total_respondents st = 0%Z →
  (∀ t, (- 2 ^ 63 ≤ t < 2 ^ 63)%Z →
        is_ok (multi_response_analysis (set_total st t) q_list group_cols)
        = is_ok (multi_response_analysis st q_list group_cols)) ∧
  (∀ t, (2 ^ 1024 ≤ Z.abs t)%Z →
        is_ok (multi_response_analysis st q_list group_cols) = true →
        multi_response_analysis (set_total st t) q_list group_cols
        = Raise OverflowError) ∧
  (∀ res,
     multi_response_analysis st q_list group_cols = Ok res →
     (∀ e, e ∈ res →
           Percentage e
           = round2 (fmul (fdiv (of_int (Count e)) (of_int 0)) (of_int 100)) ∧
           Percentage e = (if decide (Count e = 0%Z) then NaN else PInf) ∧
           is_finite (Percentage e) = false) ∧
     (∀ r q,
        r ∈ data (df st) →
        cell_at (df st) r (question_col st) q → q ∈ q_list →
        Forall (fun l => ∃ v, cell_at (df st) r l v)
               (group_cols ++ [question_col st; subquest_col st]) →
        res ≠ [])) ∧
  (∀ t res,
     t ≠ 0%Z →
     multi_response_analysis (set_total st t) q_list group_cols = Ok res →
     ∀ e, e ∈ res → is_finite (Percentage e) = true).
Proof.
  intros Hzero. split; [|split; [|split]].
  - intros t Ht. unfold multi_response_analysis. cbn [set_total df
      total_respondents question_col subquest_col respondent_col].
    destruct (get_loc _ (question_col st)); [|done].
    cbn [mbind result_bind].
    destruct (resolve_keys _ _ _ _); [|done]. cbn [mbind result_bind].
    destruct (select_column _ _); [|done]. cbn [mbind result_bind].
    unfold float_scalar.
    assert (2 ^ 63 < 2 ^ 1024 - 2 ^ 970)%Z as Hbig by by vm_compute.
    rewrite Hzero, !decide_True by lia.
    cbn [mbind result_bind].
    by destruct (mapM (check_sort_label _ _) _).
  - intros t Ht. unfold multi_response_analysis. cbn [set_total df
      total_respondents question_col subquest_col respondent_col].
    destruct (get_loc _ (question_col st)); [|done].
    cbn [mbind result_bind].
    destruct (resolve_keys _ _ _ _); [|done]. cbn [mbind result_bind].
    destruct (select_column _ _); [|done]. cbn [mbind result_bind].
    intros _. unfold float_scalar. rewrite decide_False; [done|].
    assert (0 < 2 ^ 970)%Z by by vm_compute. lia.
  - intros res Hres.
    apply multi_response_analysis_inv in Hres
      as (qloc & g & rloc & Hq & Hg & Hr & _ & _ & Hperm).
    split.
    + intros e He. rewrite Hperm in He.
      apply list_elem_of_fmap in He as (grp & -> & Hgrp).
      cbn [Percentage Count]. rewrite Hzero. split; [reflexivity|].
      rewrite percent_zero_denominator by (unfold nunique; lia).
      split; [done|]. by case_decide.
    + intros r q Hr1 (i & Hi & Hq1) Hq2 Hall Hnil.
      rewrite resolve_keys_columns in Hg by by eapply cell_at_present.
      bind_inv Hg locs Hl. injection Hg as <-.
      destruct (row_key_present _ r _ _ Hl Hall) as [k Hk].
      assert (i = qloc) as -> by congruence.
      destruct (groupby_covers locs (filter_isin qloc q_list (data (df st))) r k)
        as (grp & Hgrp & _); [|done|].
      { apply list_elem_of_filter. split; [|done].
        rewrite Hq1. simpl. by apply bool_decide_eq_true_2. }
      subst res. apply Permutation_nil_l in Hperm. symmetry in Hperm.
      apply fmap_nil_inv in Hperm. simpl in Hperm. rewrite Hperm in Hgrp.
      by apply elem_of_nil in Hgrp.
  - intros t res Ht Hres e He.
    apply multi_response_analysis_inv in Hres
      as (qloc & g & rloc & Hq & Hg & Hr & _ & _ & Hperm).
    rewrite Hperm in He.
    apply list_elem_of_fmap in He as (grp & -> & Hgrp). simpl.
    by apply percent_finite.
Qed.

Lemma multi_response_zero_total_witness :
  is_finite (Percentage (mkEntry ["Q1"; "S1"] 2 PInf)) = false.
Proof.
  refine (proj2 (proj2 (proj1 (proj1 (proj2 (proj2
            (multi_response_zero_total (init scenario_table 0) ["Q1"] []
               eq_refl))) _ _) (mkEntry ["Q1"; "S1"] 2 PInf) _))).
  - vm_compute. reflexivity.
  - left.
Defined.

(** ** Sums *)

Lemma zsum_Permutation (l1 l2 : list Z) : l1 ≡ₚ l2 → zsum l1 = zsum l2.
Proof.
  induction 1 as [|x l1 l2 _ IH|x y l|l1 l2 l3 _ IH1 _ IH2]; simpl; lia.
Qed.

Lemma zsum_positive (l : list Z) :
  l ≠ [] → Forall (fun c => (0 < c)%Z) l → (0 < zsum l)%Z.
Proof.
  intros Hne Hall. destruct Hall as [|c l Hc Hall]; [done|]. simpl.
  assert (0 ≤ zsum l)%Z; [|lia].
  clear Hne Hc. induction Hall; simpl; lia.
Qed.

(** Rounding errors add up to at most 0.01 per summand. *)
Lemma zsum_elem_le x l :
  x ∈ l → Forall (fun c => (0 ≤ c)%Z) l → (x ≤ zsum l)%Z.
Proof.
  intros Hx Hall. induction Hall as [|c l Hc Hall IH].
  - by apply elem_of_nil in Hx.
  - assert (0 ≤ zsum l)%Z by (clear -Hall; induction Hall; simpl; lia).
    apply elem_of_cons in Hx as [->|Hx]; simpl; [lia|].
    specialize (IH Hx). lia.
Qed.

Lemma percent_sum_bound (es : list entry) (T : Z) :
  (0 < T)%Z →
  Forall (fun e => Percentage e = percent (Count e) T ∧
                   (0 ≤ Count e ≤ T)%Z) es →
  ∃ s, fsum (Percentage <$> es) = Fin s ∧
       (Qabs (s - inject_Z (zsum (Count <$> es)) * (100 / inject_Z T))
        <= (1 # 100) * inject_Z (Z.of_nat (length es)))%Q.
Proof.
  intros HT. induction 1 as [|e es [He Hc] _ (s & Hs & IH)].
  - exists 0%Q. split; [done|].
    cbn [fmap list_fmap zsum foldr length]. change (inject_Z 0) with 0%Q.
    change (inject_Z (Z.of_nat 0)) with 0%Q. unfold Qdiv.
    apply Qabs_Qle_condition. split; lra.
  - destruct (percent_value (Count e) T Hc HT) as (p & Hp & _ & _ & Hb).
    exists (p + s)%Q. split.
    { cbn [fmap list_fmap fsum foldr]. fold (fsum (Percentage <$> es)).
      by rewrite He, Hp, Hs. }
    cbn [fmap list_fmap zsum foldr length]. fold (zsum (Count <$> es)).
    rewrite Nat2Z.inj_succ. unfold Z.succ. rewrite !inject_Z_plus.
    change (inject_Z 1) with 1%Q.
    apply Qabs_Qle_condition in IH. apply Qabs_Qle_condition in Hb.
    apply Qabs_Qle_condition.
    unfold Qdiv in *. split; lra.
Qed.

(** ** nominal_frequency_analysis *)

Lemma with_percentage_elem counts e :
  e ∈ with_percentage counts ↔
  ∃ kc, kc ∈ counts ∧
        e = mkEntry kc.1 kc.2 (percent kc.2 (level0_total counts kc.1)).
Proof.
  unfold with_percentage. rewrite list_elem_of_fmap.
  split; intros (kc & H1 & H2); eauto.
Qed.

(** The counts of the rows under one first-level value. *)
Lemma counts_under_level (f : list string * Z → float)
    (counts : list (list string * Z)) h :
  Count <$> filter (fun e => head (key e) = h)
              ((fun kc => mkEntry kc.1 kc.2 (f kc)) <$> counts)
  = snd <$> filter (fun kc => head kc.1 = h) counts.
Proof.
  induction counts as [|kc counts IH]; [done|].
  rewrite fmap_cons, !filter_cons. simpl.
  case_decide; [rewrite !fmap_cons; simpl|]; by rewrite IH.
Qed.

Lemma level0_total_ge (counts : list (list string * Z)) kc :
  kc ∈ counts → (∀ kc', kc' ∈ counts → (0 ≤ kc'.2)%Z) →
  (kc.2 ≤ level0_total counts kc.1)%Z.
Proof.
  intros Hkc Hpos. unfold level0_total. apply zsum_elem_le.
  - apply list_elem_of_fmap. exists kc. split; [done|].
    by apply list_elem_of_filter.
  - apply Forall_fmap, Forall_forall.
    intros kc' [_ Hin]%list_elem_of_filter. simpl. by apply Hpos.
Qed.

(** What a successful call went through. *)
Lemma nominal_frequency_analysis_inv st q_list group_col res :
  nominal_frequency_analysis st q_list group_col = Ok res →
  ∃ qloc g,
    get_loc (columns (df st)) (question_col st) = Ok qloc ∧
    resolve_keys (get_loc (columns (df st))) (columns (df st))
      (filter_isin qloc q_list (data (df st)))
      [question_col st; group_col; answer_col st] = Ok g ∧
    is_ok (check_sort_label
             (index_names g [question_col st; group_col; answer_col st])
             ["Count"; "Percentage (%)"] (question_col st)) = true ∧
    res ≡ₚ
      with_percentage
        ((fun grp => (grp.1, Z.of_nat (length grp.2)))
           <$> groups g (filter_isin qloc q_list (data (df st)))).
Proof.
  unfold nominal_frequency_analysis. intros H. cbv zeta in H.
  bind_inv H qloc Hq. bind_inv H g Hg. bind_inv H u Hu.
  injection H as <-.
  exists qloc, g. do 2 (split; [done|]). split; [by rewrite Hu|].
  destruct g; by rewrite merge_sort_Permutation.
Qed.

(** A successful call on a table that has the three grouping labels
    has read them as columns. *)
Lemma nominal_frequency_analysis_present st q_list group_col res :
  Forall (fun k => k ∈ columns (df st))
         [question_col st; group_col; answer_col st] →
  nominal_frequency_analysis st q_list group_col = Ok res →
  ∃ qloc locs,
    get_loc (columns (df st)) (question_col st) = Ok qloc ∧
    mapM (get_loc (columns (df st)))
         [question_col st; group_col; answer_col st] = Ok locs ∧
    res ≡ₚ
      with_percentage
        ((fun g => (g.1, Z.of_nat (length g.2)))
           <$> groupby locs (filter_isin qloc q_list (data (df st)))).
Proof.
  intros Hall (qloc & g & Hq & Hg & _ & Hperm)%nominal_frequency_analysis_inv.
  rewrite resolve_keys_columns in Hg by done.
  bind_inv Hg locs Hl. injection Hg as <-. eauto.
Qed.

(** Unless the question column is named like one of the two value
    columns of the result, a successful call has read the three grouping
    labels as columns. *)
Lemma nominal_frequency_analysis_by_columns st q_list group_col res :
  question_col st ∉ ["Count"; "Percentage (%)"] →
  nominal_frequency_analysis st q_list group_col = Ok res →
  ∃ qloc locs,
    get_loc (columns (df st)) (question_col st) = Ok qloc ∧
    mapM (get_loc (columns (df st)))
         [question_col st; group_col; answer_col st] = Ok locs ∧
    res ≡ₚ
      with_percentage
        ((fun g => (g.1, Z.of_nat (length g.2)))
           <$> groupby locs (filter_isin qloc q_list (data (df st)))).
Proof.
  intros Hq (qloc & g & Hqloc & Hg & Hs & Hperm)%nominal_frequency_analysis_inv.
  apply resolve_keys_inv in Hg as [(locs & Hl & ->)|(-> & _ & _)]; [by eauto|].
  exfalso. simpl in Hs.
  destruct (check_sort_label _ _ _) as [u|] eqn:Hu; [|done].
  by apply check_sort_label_unnamed in Hu.
Qed.

(** The call returns as soon as its three labels each name one column
    and the question label clashes with no other index level or result
    column. *)
Lemma nominal_frequency_analysis_returns st q_list group_col qloc gloc aloc :
  get_loc (columns (df st)) (question_col st) = Ok qloc →
  get_loc (columns (df st)) group_col = Ok gloc →
  get_loc (columns (df st)) (answer_col st) = Ok aloc →
  question_col st ≠ group_col → question_col st ≠ answer_col st →
  question_col st ∉ ["Count"; "Percentage (%)"] →
  ∃ res, nominal_frequency_analysis st q_list group_col = Ok res.
Proof.
  intros Hq Hg Ha Hqg Hqa Hclash. unfold nominal_frequency_analysis.
  cbv zeta. rewrite Hq. cbn [mbind result_bind].
  rewrite resolve_keys_columns
    by (repeat constructor; by eapply get_loc_present).
  cbn [mapM]. rewrite Hq, Hg, Ha. cbn [mbind result_bind mret result_ret].
  unfold check_sort_label. cbn [index_names positions].
  rewrite decide_True by done.
  rewrite !(decide_False (P := _ = question_col st)) by done.
  rewrite decide_False by done. cbn [mbind result_bind]. eauto.
Qed.

(** The per-question total that a row of the result was divided by is
    the sum of the counts listed under its question. *)
Lemma question_total_of_result counts res k :
  res ≡ₚ with_percentage counts →
  level0_total counts k
  = zsum (Count <$> filter (fun e => head (key e) = head k) res).
Proof.
  intros Hperm. unfold level0_total.
  rewrite <- (counts_under_level
                (fun kc => percent kc.2 (level0_total counts kc.1))).
  apply zsum_Permutation, fmap_Permutation, filter_Permutation.
  by symmetry.
Qed.

(** *** C6 *)

(** C6: in the table returned by [nominal_frequency_analysis] every row
    stands for one group of the filtered rows, its count is the number
    of rows of that group, every row counted whoever the respondent is,
    and its percentage is that count divided by the sum of the counts
    listed under the same question, times 100, rounded to two decimals,
    all in float64: the total is positive and the percentage is the
    float64 nearest to [n / 100] for an integer [n] within one half (and
    the float64 error of the quotient) of 10000 times the exact ratio.
    Unless the question column is named like a value column of the
    result, the groups are those of the three grouping columns: the
    count is the number of filtered rows that carry the key.  On the
    three-row scenario grouped by "subquestion" the result is
    count 2 for (Q1, S1, Yes) and count 1 for (Q1, S2, No), the total
    under Q1 is 3, and the percentages are 66.67 and 33.33; 23 rows out
    of 160 give 14.37, the float64 product being just below 14.375. *)
Theorem nominal_frequency_counts_rows :
  (∀ st q_list group_col res e,
     nominal_frequency_analysis st q_list group_col = Ok res → e ∈ res →
     let total :=
       zsum (Count <$> filter (fun e' => head (key e') = head (key e)) res) in
     (∃ qloc g rows,
        get_loc (columns (df st)) (question_col st) = Ok qloc ∧
        resolve_keys (get_loc (columns (df st))) (columns (df st))
          (filter_isin qloc q_list (data (df st)))
          [question_col st; group_col; answer_col st] = Ok g ∧
        (key e, rows) ∈ groups g (filter_isin qloc q_list (data (df st))) ∧
        Count e = Z.of_nat (length rows)) ∧
     Percentage e
     = round2 (fmul (fdiv (of_int (Count e)) (of_int total)) (of_int 100)) ∧
     (0 < total)%Z ∧
     ∃ n : Z,
       Percentage e = f64 (inject_Z n / 100) ∧
       (Qabs (inject_Z n - 10000 * (inject_Z (Count e) / inject_Z total))
        <= (1 # 2)
           + (inject_Z (Count e) / inject_Z total) * (1 # 10000000000))%Q) ∧
  (∀ st q_list group_col res e,
     question_col st ∉ ["Count"; "Percentage (%)"] →
     nominal_frequency_analysis st q_list group_col = Ok res → e ∈ res →
     ∃ qloc locs,
       get_loc (columns (df st)) (question_col st) = Ok qloc ∧
       mapM (get_loc (columns (df st)))
            [question_col st; group_col; answer_col st] = Ok locs ∧
       Count e
       = Z.of_nat (length (filter (fun r => row_key locs r = Some (key e))
                             (filter_isin qloc q_list (data (df st)))))) ∧
  nominal_frequency_analysis scenario ["Q1"] "subquestion"
  = Ok [ mkEntry ["Q1"; "S1"; "Yes"] 2 (f64 (6667 # 100));
         mkEntry ["Q1"; "S2"; "No"] 1 (f64 (3333 # 100)) ] ∧
  zsum (Count <$> filter (fun e' => head (key e') = Some "Q1")
                    [ mkEntry ["Q1"; "S1"; "Yes"] 2 (f64 (6667 # 100));
                      mkEntry ["Q1"; "S2"; "No"] 1 (f64 (3333 # 100)) ])
  = 3%Z ∧
  nominal_frequency_analysis twenty_three_of_160 ["Q1"] "subquestion"
  = Ok [ mkEntry ["Q1"; "S1"; "Yes"] 23 (f64 (1437 # 100));
         mkEntry ["Q1"; "S2"; "No"] 137 (f64 (8562 # 100)) ].
Proof.
  split; [|split; [|split; [|split]; by vm_compute]].
  - intros st q_list group_col res e Hres He total.
    apply nominal_frequency_analysis_inv in Hres
      as (qloc & g & Hq & Hg & _ & Hperm).
    pose proof He as He'. rewrite Hperm in He'.
    apply with_percentage_elem in He' as (kc & Hkc & ->).
    unfold total. cbn [Count Percentage key].
    rewrite <- (question_total_of_result _ res kc.1 Hperm).
    set (raw := (fun grp => (grp.1, Z.of_nat (length grp.2)))
                  <$> groups g (filter_isin qloc q_list (data (df st)))) in *.
    assert (Hpos : ∀ kc', kc' ∈ raw → (1 ≤ kc'.2)%Z).
    { intros kc' (grp & -> & Hgrp)%list_elem_of_fmap. simpl.
      pose proof (groups_nonempty _ _ _ _ _ _ Hg Hgrp). lia. }
    assert (Htot : (kc.2 ≤ level0_total raw kc.1)%Z).
    { apply level0_total_ge; [done|]. intros kc' Hkc'.
      specialize (Hpos kc' Hkc'). lia. }
    pose proof (Hpos kc Hkc) as Hc.
    split; [|split; [done|split; [lia|]]].
    + apply list_elem_of_fmap in Hkc as (grp & -> & Hgrp).
      exists qloc, g, grp.2. do 2 (split; [done|]). by destruct grp.
    + destruct (percent_spec kc.2 (level0_total raw kc.1))
        as (n & Hn & _ & Hb); [lia|lia|].
      exists n. by split.
  - intros st q_list group_col res e Hname Hres He.
    destruct (nominal_frequency_analysis_by_columns _ _ _ _ Hname Hres)
      as (qloc & locs & Hq & Hl & Hperm).
    exists qloc, locs. do 2 (split; [done|]).
    rewrite Hperm in He.
    apply with_percentage_elem in He as (kc & Hkc & ->).
    apply list_elem_of_fmap in Hkc as (g & -> & Hg). simpl.
    apply groupby_elem in Hg as [_ Hg]. by rewrite <- Hg.
Qed.

Lemma nominal_frequency_counts_rows_witness :
  let e := mkEntry ["Q1"; "S1"; "Yes"] 23 (f64 (1437 # 100)) in
  let res := [ e; mkEntry ["Q1"; "S2"; "No"] 137 (f64 (8562 # 100)) ] in
  let total :=
    zsum (Count <$> filter (fun e' => head (key e') = head (key e)) res) in
  Percentage e
  = round2 (fmul (fdiv (of_int (Count e)) (of_int total)) (of_int 100)) ∧
  (0 < total)%Z.
Proof.
  pose proof (proj1 nominal_frequency_counts_rows twenty_three_of_160 ["Q1"]
                "subquestion"
                [ mkEntry ["Q1"; "S1"; "Yes"] 23 (f64 (1437 # 100));
                  mkEntry ["Q1"; "S2"; "No"] 137 (f64 (8562 # 100)) ]
                (mkEntry ["Q1"; "S1"; "Yes"] 23 (f64 (1437 # 100))))
    as H.
  destruct H as (_ & Hp & Ht & _).
  - vm_compute. reflexivity.
  - left.
  - split; [exact Hp|exact Ht].
Defined.

(** *** C1 *)

(** C1, as worded, fails: a question value can have filtered rows and
    still no row in the result, because rows whose group or answer value
    is missing belong to no group; its percentages then sum to 0 over 0
    groups. *)
Lemma nominal_percentages_missing_group :
  let st := init (mkDataFrame
                    ["question"; "subquestion"; "respondent_id"; "answer"]
                    [[Some "Q1"; None; Some "R1"; Some "Yes"]]) 1 in
  ∃ r res,
    r ∈ data (df st) ∧ cell_at (df st) r (question_col st) "Q1" ∧
    "Q1" ∈ ["Q1"] ∧
    nominal_frequency_analysis st ["Q1"] "subquestion" = Ok res ∧
    let under_q := filter (fun e => head (key e) = Some "Q1") res in
    ∃ s, fsum (Percentage <$> under_q) = Fin s ∧
         ¬ (Qabs (s - 100)
            <= (1 # 100) * inject_Z (Z.of_nat (length under_q)))%Q.
Proof.
  exists [Some "Q1"; None; Some "R1"; Some "Yes"], [].
  split; [left|]. split; [by exists 0%nat|]. split; [left|].
  split; [by vm_compute|]. exists 0%Q. split; [done|].
  vm_compute. intros H. by apply H.
Qed.

(** The percentages listed under a question of the result. *)
Lemma nominal_percentages_of_result st q_list group_col res e0 q :
  nominal_frequency_analysis st q_list group_col = Ok res →
  e0 ∈ res → head (key e0) = Some q →
  let under_q := filter (fun e => head (key e) = Some q) res in
  ∃ s, fsum (Percentage <$> under_q) = Fin s ∧
       (Qabs (s - 100)
        <= (1 # 100) * inject_Z (Z.of_nat (length under_q)))%Q.
Proof.
  intros Hres He0 Hq0 under_q.
  apply nominal_frequency_analysis_inv in Hres
    as (qloc & g & Hq & Hg & _ & Hperm).
  set (raw := (fun grp => (grp.1, Z.of_nat (length grp.2)))
                <$> groups g (filter_isin qloc q_list (data (df st))))
    in Hperm.
  set (T := zsum (Count <$> under_q)).
  assert (Hcnt : ∀ e, e ∈ under_q → (1 ≤ Count e)%Z).
  { intros e [_ He2]%list_elem_of_filter. rewrite Hperm in He2.
    apply with_percentage_elem in He2 as (kc & Hkc & ->).
    apply list_elem_of_fmap in Hkc as (grp & -> & Hgrp). simpl.
    pose proof (groups_nonempty _ _ _ _ _ _ Hg Hgrp). lia. }
  assert (Hall : Forall (fun e => Percentage e = percent (Count e) T ∧
                                  (0 ≤ Count e ≤ T)%Z) under_q).
  { apply Forall_forall. intros e He. pose proof (Hcnt e He) as H1.
    split.
    - apply list_elem_of_filter in He as [He1 He2]. rewrite Hperm in He2.
      apply with_percentage_elem in He2 as (kc & Hkc & ->).
      cbn [Percentage Count key] in *.
      rewrite (question_total_of_result _ res kc.1 Hperm). by rewrite He1.
    - split; [lia|]. unfold T. apply zsum_elem_le.
      + by apply list_elem_of_fmap_2.
      + apply Forall_fmap, Forall_forall. intros e' He'. simpl.
        specialize (Hcnt e' He'). lia. }
  assert (Hpos : (0 < T)%Z).
  { apply zsum_positive.
    - intros Hnil%fmap_nil_inv.
      assert (e0 ∈ under_q) as Hin by by apply list_elem_of_filter.
      rewrite Hnil in Hin. by apply elem_of_nil in Hin.
    - apply Forall_fmap, Forall_forall.
      intros e He. specialize (Hcnt e He). simpl. lia. }
  destruct (percent_sum_bound under_q T) as (s & Hs & Hb); [done|done|].
  exists s. split; [done|]. fold T in Hb.
  assert (inject_Z T * (100 / inject_Z T) == 100)%Q as HT.
  { field. intros H0. apply (inject_Z_injective T 0) in H0. lia. }
  rewrite HT in Hb.
  apply Qabs_Qle_condition in Hb. apply Qabs_Qle_condition.
  assert (0 <= inject_Z (Z.of_nat (length under_q)))%Q.
  { change 0%Q with (inject_Z 0). rewrite <- Zle_Qle. lia. }
  split; lra.
Qed.

(** C1 (amended): for every table on which the call succeeds and every
    [q_list], under each question value that has at least one filtered
    row whose group and answer values are both present, the table
    returned by [nominal_frequency_analysis] lists at least one row and
    the 'Percentage (%)' values of those rows sum to 100 up to 0.01
    times their number. *)
Theorem nominal_percentages_sum_to_100 st q_list group_col res r q g a :
  nominal_frequency_analysis st q_list group_col = Ok res →
  r ∈ data (df st) → q ∈ q_list →
  cell_at (df st) r (question_col st) q →
  cell_at (df st) r group_col g →
  cell_at (df st) r (answer_col st) a →
  let under_q := filter (fun e => head (key e) = Some q) res in
  under_q ≠ [] ∧
  ∃ s, fsum (Percentage <$> under_q) = Fin s ∧
       (Qabs (s - 100)
        <= (1 # 100) * inject_Z (Z.of_nat (length under_q)))%Q.
Proof.
  intros Hres Hr Hq (i & Hi & Hcq) (j & Hj & Hcg) (k & Hk & Hca) under_q.
  pose proof Hres as Hinv.
  apply nominal_frequency_analysis_present in Hinv
    as (qloc & locs & Hqloc & Hl & Hperm);
    [|repeat constructor; by eapply get_loc_present].
  assert (i = qloc) as -> by congruence.
  assert (locs = [qloc; j; k]) as ->.
  { cbn [mapM] in Hl. rewrite Hqloc, Hj, Hk in Hl. simpl in Hl.
    by injection Hl as <-. }
  destruct (groupby_covers [qloc; j; k]
              (filter_isin qloc q_list (data (df st))) r [q; g; a])
    as (grp & Hgrp & Hkey).
  { apply list_elem_of_filter. split; [|done].
    rewrite Hcq. simpl. by apply bool_decide_eq_true_2. }
  { unfold row_key. cbn [mapM]. by rewrite Hcq, Hcg, Hca. }
  set (e0 := mkEntry grp.1 (Z.of_nat (length grp.2))
               (percent (Z.of_nat (length grp.2))
                  (level0_total
                     ((fun g => (g.1, Z.of_nat (length g.2)))
                        <$> groupby [qloc; j; k]
                              (filter_isin qloc q_list (data (df st))))
                     grp.1))).
  assert (He0 : e0 ∈ res).
  { rewrite Hperm. apply with_percentage_elem.
    exists (grp.1, Z.of_nat (length grp.2)). split; [|done].
    apply list_elem_of_fmap. eauto. }
  assert (Hhead : head (key e0) = Some q) by (simpl; by rewrite Hkey).
  split.
  - intros Hnil.
    assert (e0 ∈ under_q) as Hin by by apply list_elem_of_filter.
    rewrite Hnil in Hin. by apply elem_of_nil in Hin.
  - by eapply nominal_percentages_of_result.
Qed.

Lemma nominal_percentages_sum_to_100_witness :
  let under_q :=
    filter (fun e => head (key e) = Some "Q1")
      [ mkEntry ["Q1"; "S1"; "Yes"] 2 (f64 (6667 # 100));
        mkEntry ["Q1"; "S2"; "No"] 1 (f64 (3333 # 100)) ] in
  under_q ≠ [] ∧
  ∃ s, fsum (Percentage <$> under_q) = Fin s ∧
       (Qabs (s - 100)
        <= (1 # 100) * inject_Z (Z.of_nat (length under_q)))%Q.
Proof.
  refine (nominal_percentages_sum_to_100 scenario ["Q1"] "subquestion" _
            [Some "Q1"; Some "S1"; Some "R1"; Some "Yes"] "Q1" "S1" "Yes"
            _ _ _ _ _ _).
  - vm_compute. reflexivity.
  - left.
  - left.
  - exists 0%nat. split; reflexivity.
  - exists 1%nat. split; reflexivity.
  - exists 3%nat. split; reflexivity.
Defined.

(** ** nominal_frequency_pivot *)

Lemma pivot_loc_get_loc cols index values label i :
  pivot_loc cols index values label = Ok i → get_loc cols label = Ok i.
Proof. unfold pivot_loc. by case_decide. Qed.

Lemma mapM_pivot_loc cols index values keys locs :
  mapM (pivot_loc cols index values) keys = Ok locs →
  mapM (get_loc cols) keys = Ok locs.
Proof.
  revert locs. induction keys as [|k keys IH]; intros locs H; [done|].
  cbn [mapM] in *. bind_inv H i Hi. bind_inv H l Hl. injection H as <-.
  by rewrite (pivot_loc_get_loc _ _ _ _ _ Hi), (IH _ eq_refl).
Qed.

Lemma resolve_keys_pivot_loc cols index values (rows : list (list cell)) keys g :
  resolve_keys (pivot_loc cols index values) cols rows keys = Ok g →
  resolve_keys (get_loc cols) cols rows keys = Ok g.
Proof.
  unfold resolve_keys. case_decide as Hd; [done|]. intros H.
  bind_inv H locs Hl. injection H as <-.
  by rewrite (mapM_pivot_loc _ _ _ _ _ Hl).
Qed.

Lemma positions_replicate (x : string) n i :
  length (positions x (replicate n x) i) = n.
Proof.
  revert i. induction n as [|n IH]; intros i; [done|]. simpl.
  rewrite decide_True by done. simpl. by rewrite IH.
Qed.

(** What a successful call went through. *)
Lemma nominal_frequency_pivot_inv st q_list group_col res :
  nominal_frequency_pivot st q_list group_col = Ok res →
  ∃ qloc g vloc,
    get_loc (columns (df st)) (question_col st) = Ok qloc ∧
    resolve_keys (get_loc (columns (df st))) (columns (df st))
      (filter_isin qloc q_list (data (df st)))
      [question_col st; group_col; answer_col st] = Ok g ∧
    get_loc (columns (df st)) (respondent_col st) = Ok vloc ∧
    groups g (filter_isin qloc q_list (data (df st))) ≠ [] ∧
    res ≡ₚ
      with_percentage
        ((fun grp => (grp.1, count_notna ((fun r => at_loc r vloc) <$> grp.2)))
           <$> groups g (filter_isin qloc q_list (data (df st)))).
Proof.
  unfold nominal_frequency_pivot, pivot_table_count. intros H. cbv zeta in H.
  bind_inv H qloc Hq.
  destruct (decide (respondent_col st ∈ columns (df st))); [|done].
  cbn [mbind result_bind] in H.
  destruct (resolve_keys (pivot_loc _ _ _) _ _ _) as [g|] eqn:Hg; [|done].
  cbn [mbind result_bind] in H.
  apply resolve_keys_pivot_loc in Hg.
  destruct (groups g (filter_isin qloc q_list (data (df st))))
    as [|grp grps] eqn:Hgrps; [done|].
  rewrite fmap_cons in H. cbv beta iota in H.
  set (n := (pivot_mentions _ _ _ _ * _)%nat) in H.
  rewrite fmap_replicate, decide_True in H by done.
  pose proof (positions_replicate "Count" n 0) as Hn.
  destruct (positions "Count" (replicate n "Count") 0) as [|c [|c' cs]];
    [done| |done].
  injection H as <-. simpl in Hn.
  assert (length (positions (respondent_col st) (columns (df st)) 0) = 1%nat)
    as Hv.
  { unfold n in Hn. symmetry in Hn.
    by apply Nat.eq_mul_1 in Hn as [_ ?]. }
  destruct (positions (respondent_col st) (columns (df st)) 0)
    as [|vloc [|v' vs]] eqn:Hp; [done| |done].
  exists qloc, g, vloc. do 2 (split; [done|]).
  split; [unfold get_loc; by rewrite Hp|].
  split; [by rewrite Hgrps|].
  by rewrite merge_sort_Permutation, Hgrps, fmap_cons.
Qed.

(** Without missing values, counting the present cells counts the rows. *)
Lemma count_notna_all_present (rows : list (list cell)) vloc :
  Forall (fun r => is_Some (at_loc r vloc)) rows →
  count_notna ((fun r => at_loc r vloc) <$> rows) = Z.of_nat (length rows).
Proof.
  unfold count_notna. intros Hall. f_equal.
  induction Hall as [|r rows [v Hv] _ IH]; [done|].
  rewrite fmap_cons. cbn [omap list_omap]. rewrite Hv. simpl. by rewrite IH.
Qed.

(** On a table whose respondent column has no missing value the two
    nominal methods list the same rows whenever both return. *)
Lemma nominal_frequency_agree st q_list group_col res1 res2 :
  (∀ r, r ∈ data (df st) → ∃ v, cell_at (df st) r (respondent_col st) v) →
  nominal_frequency_analysis st q_list group_col = Ok res1 →
  nominal_frequency_pivot st q_list group_col = Ok res2 →
  res1 ≡ₚ res2.
Proof.
  intros Hfull (qloc & g & Hq & Hg & _ & Hp1)%nominal_frequency_analysis_inv
    (qloc' & g' & vloc & Hq' & Hg' & Hv & _ & Hp2)%nominal_frequency_pivot_inv.
  assert (qloc' = qloc) as -> by congruence.
  assert (g' = g) as -> by congruence.
  rewrite Hp1, Hp2. f_equiv. apply list_fmap_ext. intros i grp Hgrp. f_equal.
  symmetry. apply count_notna_all_present, Forall_forall. intros r Hr.
  apply list_elem_of_lookup_2 in Hgrp.
  pose proof (groups_rows _ _ _ _ Hgrp Hr) as [_ Hin]%list_elem_of_filter.
  destruct (Hfull r Hin) as (v & j & Hj & Hcell).
  assert (j = vloc) as -> by congruence. by exists v.
Qed.

(** *** C8 *)

(** C8 fails on the code when no row survives the filter and the
    grouping, although no respondent value is missing:
    [nominal_frequency_analysis] returns an empty table, while in
    [nominal_frequency_pivot] the pivot table has lost its value column
    and the lookup of 'Count' raises. *)
Theorem nominal_frequency_pivot_raises_on_empty :
  (∀ r, r ∈ data (df scenario) →
        ∃ v, cell_at (df scenario) r (respondent_col scenario) v) ∧
  nominal_frequency_analysis scenario ["Q9"] "subquestion" = Ok [] ∧
  nominal_frequency_pivot scenario ["Q9"] "subquestion"
  = Raise (KeyError "Column not found: Count").
Proof.
  split; [|split; by vm_compute].
  intros r Hr. unfold cell_at. simpl.
  repeat (apply elem_of_cons in Hr as [->|Hr]);
    [by exists "R1", 2%nat|by exists "R2", 2%nat|by exists "R1", 2%nat|].
  by apply elem_of_nil in Hr.
Qed.

(** ** grouped_summary_stats *)

Lemma check_columns_missing cols names :
  (∃ c, c ∈ names ∧ c ∉ cols) →
  ∃ c, c ∈ names ∧ (c ∉ cols) ∧
       check_columns cols names
       = Raise (KeyError ("Column '" +:+ c +:+ "' not found in the DataFrame.")).
Proof.
  induction names as [|n names IH]; intros (c & Hc & Hnc).
  - by apply elem_of_nil in Hc.
  - cbn [check_columns]. case_decide as Hn.
    + destruct IH as (c' & Hc' & Hnc' & Hchk).
      { apply elem_of_cons in Hc as [->|Hc]; [done|eauto]. }
      exists c'. split; [by right|done].
    + exists n. split; [left|done].
Qed.

(** *** C4 *)

(** C4: if a name of [numeric_col_list] or [group_col] is absent from the
    columns of the held table, [grouped_summary_stats] raises a
    [KeyError] whose message names an absent column; this happens before
    any aggregation, whatever the reductions would do (even fail): there
    is no output and the instance is unchanged. *)
Theorem grouped_summary_stats_missing_column
    st numeric_col_list group_col summary_funcs :
  (∃ c, c ∈ numeric_col_list ++ [group_col] ∧ c ∉ columns (df st)) →
  ∃ c, c ∈ numeric_col_list ++ [group_col] ∧ (c ∉ columns (df st)) ∧
       ∀ reduce,
         grouped_summary_stats reduce st numeric_col_list group_col
           summary_funcs
         = (Raise (KeyError
                     ("Column '" +:+ c +:+ "' not found in the DataFrame.")),
            st).
Proof.
  intros (c & Hc & Hnc & Hchk)%check_columns_missing.
  exists c. split; [done|]. split; [done|].
  intros reduce. unfold grouped_summary_stats. by rewrite Hchk.
Qed.

Lemma grouped_summary_stats_missing_column_witness :
  ∃ c, c ∈ ["answer"; "score"] ++ ["question"] ∧
       (c ∉ columns (df scenario)) ∧
       ∀ reduce,
         grouped_summary_stats reduce scenario ["answer"; "score"] "question"
           default_summary_funcs
         = (Raise (KeyError
                     ("Column '" +:+ c +:+ "' not found in the DataFrame.")),
            scenario).
Proof.
  apply (grouped_summary_stats_missing_column scenario
           ["answer"; "score"] "question" default_summary_funcs).
  exists "score". split; [by right; left|].
  intros Hin. vm_compute in Hin.
  repeat (apply elem_of_cons in Hin as [Hin|Hin]; [discriminate Hin|]).
  by apply elem_of_nil in Hin.
Defined.


(** * Further properties of the operations *)

(** ** sanitize_columns *)

(** X1: [sanitize_columns] renames every column, duplicated labels
    included, to [sanitize_name] of its own label, keeps the number and
    order of the columns and every row, stores the table it returns and
    touches neither [total_respondents] nor the four role names. *)
Theorem sanitize_columns_relabels_only st :
  columns (sanitize_columns st).1 = sanitize_name <$> columns (df st) ∧
  length (columns (sanitize_columns st).1) = length (columns (df st)) ∧
  data (sanitize_columns st).1 = data (df st) ∧
  df (sanitize_columns st).2 = (sanitize_columns st).1 ∧
  total_respondents (sanitize_columns st).2 = total_respondents st ∧
  question_col (sanitize_columns st).2 = question_col st ∧
  subquest_col (sanitize_columns st).2 = subquest_col st ∧
  respondent_col (sanitize_columns st).2 = respondent_col st ∧
  answer_col (sanitize_columns st).2 = answer_col st.
Proof.
  split; [apply sanitize_columns_names|].
  split; [by rewrite sanitize_columns_names, length_fmap|].
  by repeat split.
Qed.

(** X2: after [sanitize_columns] no column label holds a space, a
    period, a hyphen or a parenthesis, and every label is lowercase. *)
Theorem sanitize_columns_labels_clean st c ch :
  c ∈ columns (sanitize_columns st).1 →
  (PyStr.rewritten ch → PyStr.mem_char ch c = false) ∧ PyStr.lower c = c.
Proof.
  rewrite sanitize_columns_names.
  intros (n & -> & _)%list_elem_of_fmap. split.
  - apply sanitize_name_clean.
  - unfold sanitize_name. apply lower_idemp.
Qed.

Lemma sanitize_columns_labels_clean_witness :
  (PyStr.rewritten "."%char → PyStr.mem_char "." "favorite_color_2023_" = false) ∧
  PyStr.lower "favorite_color_2023_" = "favorite_color_2023_".
Proof.
  apply (sanitize_columns_labels_clean
           (init (mkDataFrame [" Favorite Color (2023)."] []) 0)).
  vm_compute. left.
Defined.

Lemma sanitize_name_clean_label n : clean_label n → sanitize_name n = n.
Proof.
  intros (Hs & Hl & Ho & Hc). unfold sanitize_name. rewrite Hs.
  apply Forall_cons in Hc as [H1 Hc]. apply Forall_cons in Hc as [H2 Hc].
  apply Forall_cons in Hc as [H3 Hc]. apply Forall_cons in Hc as [H4 Hc].
  apply Forall_cons in Hc as [H5 _].
  rewrite (replace_char_absent " " "_" n), (replace_char_absent "." "_" n),
    (replace_char_absent "-" "_" n), (replace_char_absent "(" "" n),
    (replace_char_absent ")" "" n) by done.
  by rewrite replace_no_occurrence.
Qed.

(** X3: on a table whose labels are all clean (no surrounding
    whitespace, lowercase, no double underscore, none of the rewritten
    characters) [sanitize_columns] changes no label. *)
Theorem sanitize_columns_clean_fixpoint st :
  Forall clean_label (columns (df st)) →
  columns (sanitize_columns st).1 = columns (df st).
Proof.
  intros Hall. rewrite sanitize_columns_names.
  rewrite <- (list_fmap_id (columns (df st))) at 2.
  apply list_fmap_ext. intros i n Hn. simpl.
  apply sanitize_name_clean_label.
  by apply (proj1 (Forall_lookup _ _) Hall i).
Qed.

Lemma sanitize_columns_clean_fixpoint_witness :
  columns (sanitize_columns scenario).1 = columns (df scenario).
Proof.
  apply (sanitize_columns_clean_fixpoint scenario).
  repeat (apply Forall_cons; split;
          [by (repeat split; try reflexivity; repeat constructor)|]).
  apply Forall_nil_2.
Defined.

(** ** Lookup failures *)

Lemma positions_absent label cols i :
  label ∉ cols → positions label cols i = [].
Proof.
  revert i. induction cols as [|c cols IH]; intros i Hnin; [done|].
  cbn [positions]. rewrite decide_False.
  - apply IH. intros Hin. apply Hnin. by right.
  - intros ->. apply Hnin. left.
Qed.

Lemma get_loc_absent cols label :
  label ∉ cols → get_loc cols label = Raise (KeyError label).
Proof. intros H. unfold get_loc. by rewrite positions_absent. Qed.

(** X4: when the configured question column is absent from the held
    table, each of the three frequency methods raises a [KeyError]
    carrying that column name, whatever the other arguments are. *)
Theorem question_column_missing st q_list group_cols group_col :
  question_col st ∉ columns (df st) →
  multi_response_analysis st q_list group_cols
  = Raise (KeyError (question_col st)) ∧
  nominal_frequency_analysis st q_list group_col
  = Raise (KeyError (question_col st)) ∧
  nominal_frequency_pivot st q_list group_col
  = Raise (KeyError (question_col st)).
Proof.
  intros Hq%get_loc_absent.
  unfold multi_response_analysis, nominal_frequency_analysis,
    nominal_frequency_pivot.
  cbv zeta. by rewrite Hq.
Qed.

Lemma question_column_missing_witness :
  let st := init (mkDataFrame ["Question"; "answer"] []) 1 in
  multi_response_analysis st ["Q1"] [] = Raise (KeyError "question") ∧
  nominal_frequency_analysis st ["Q1"] "answer" = Raise (KeyError "question") ∧
  nominal_frequency_pivot st ["Q1"] "answer" = Raise (KeyError "question").
Proof.
  apply (question_column_missing
           (init (mkDataFrame ["Question"; "answer"] []) 1) ["Q1"] [] "answer").
  intros Hin. vm_compute in Hin.
  repeat (apply elem_of_cons in Hin as [Hin|Hin]; [discriminate Hin|]).
  by apply elem_of_nil in Hin.
Defined.

(** ** The question filter *)

Lemma filter_isin_ext i (q1 q2 : list string) rows :
  (∀ s, s ∈ q1 ↔ s ∈ q2) → filter_isin i q1 rows = filter_isin i q2 rows.
Proof.
  intros Hq. unfold filter_isin. apply list_filter_iff. intros r.
  destruct (at_loc r i) as [s|]; simpl; [|done].
  rewrite !bool_decide_eq_true. apply Hq.
Qed.

(** X5: the three frequency methods depend on [q_list] only through
    the set of its elements: order and repetitions do not matter. *)
Theorem q_list_as_set st (q1 q2 : list string) group_cols group_col :
  (∀ s, s ∈ q1 ↔ s ∈ q2) →
  multi_response_analysis st q1 group_cols
  = multi_response_analysis st q2 group_cols ∧
  nominal_frequency_analysis st q1 group_col
  = nominal_frequency_analysis st q2 group_col ∧
  nominal_frequency_pivot st q1 group_col
  = nominal_frequency_pivot st q2 group_col.
Proof.
  intros Hq.
  unfold multi_response_analysis, nominal_frequency_analysis,
    nominal_frequency_pivot.
  cbv zeta.
  destruct (get_loc _ (question_col st)) as [qloc|]; [|done]. simpl.
  by rewrite (filter_isin_ext qloc q1 q2 _ Hq).
Qed.

Lemma q_list_as_set_witness :
  multi_response_analysis scenario ["Q1"; "Q2"; "Q1"] []
  = multi_response_analysis scenario ["Q2"; "Q1"] [] ∧
  nominal_frequency_analysis scenario ["Q1"; "Q2"; "Q1"] "subquestion"
  = nominal_frequency_analysis scenario ["Q2"; "Q1"] "subquestion" ∧
  nominal_frequency_pivot scenario ["Q1"; "Q2"; "Q1"] "subquestion"
  = nominal_frequency_pivot scenario ["Q2"; "Q1"] "subquestion".
Proof.
  apply (q_list_as_set scenario ["Q1"; "Q2"; "Q1"] ["Q2"; "Q1"] []
           "subquestion").
  intros s. rewrite !elem_of_cons, !elem_of_nil. tauto.
Defined.

Lemma filter_isin_no_match st q_list qloc :
  get_loc (columns (df st)) (question_col st) = Ok qloc →
  (∀ r q, r ∈ data (df st) →
          cell_at (df st) r (question_col st) q → q ∉ q_list) →
  filter_isin qloc q_list (data (df st)) = [].
Proof.
  intros Hq Hno. unfold filter_isin.
  induction (data (df st)) as [|r rows IH]; [done|].
  rewrite filter_cons. rewrite decide_False.
  - apply IH. intros r' q Hr'. apply Hno. by right.
  - destruct (at_loc r qloc) as [s|] eqn:Hs; simpl; [|done].
    rewrite bool_decide_eq_true. apply (Hno r s); [left|].
    by exists qloc.
Qed.

(** X6: when no row of the held table has its question in [q_list] (in
    particular for an empty [q_list]), [multi_response_analysis] and
    [nominal_frequency_analysis] return a table without rows whenever
    they return. *)
Theorem no_match_returns_empty st q_list :
  (∀ r q, r ∈ data (df st) →
          cell_at (df st) r (question_col st) q → q ∉ q_list) →
  (∀ group_cols res,
     multi_response_analysis st q_list group_cols = Ok res → res = []) ∧
  (∀ group_col res,
     nominal_frequency_analysis st q_list group_col = Ok res → res = []).
Proof.
  intros Hno. split.
  - intros group_cols res
      (qloc & g & rloc & Hq & Hg & _ & _ & _ & Hperm)%multi_response_analysis_inv.
    rewrite (filter_isin_no_match _ _ _ Hq Hno) in Hg, Hperm.
    rewrite (groups_nil _ _ _ _ Hg) in Hperm.
    by apply Permutation_nil_r in Hperm.
  - intros group_col res
      (qloc & g & Hq & Hg & _ & Hperm)%nominal_frequency_analysis_inv.
    rewrite (filter_isin_no_match _ _ _ Hq Hno) in Hg, Hperm.
    rewrite (groups_nil _ _ _ _ Hg) in Hperm.
    by apply Permutation_nil_r in Hperm.
Qed.

Lemma no_match_returns_empty_witness :
  multi_response_analysis scenario [] ["answer"] = Ok [] ∧
  nominal_frequency_analysis scenario [] "subquestion" = Ok [].
Proof.
  assert (H : ∀ r q, r ∈ data (df scenario) →
                     cell_at (df scenario) r (question_col scenario) q →
                     q ∉ @nil string).
  { intros r q _ _ Hin. by apply elem_of_nil in Hin. }
  destruct (no_match_returns_empty scenario [] H) as [H1 H2]. split.
  - destruct (multi_response_analysis scenario [] ["answer"]) as [res|e] eqn:E;
      [by rewrite (H1 _ _ E)|by vm_compute in E].
  - destruct (nominal_frequency_analysis scenario [] "subquestion")
      as [res|e] eqn:E; [by rewrite (H2 _ _ E)|by vm_compute in E].
Defined.

(** X7: [nominal_frequency_pivot] never returns a table without rows:
    when no filtered row carries its question, group and answer values,
    the pivot table has no 'Count' column and the call raises. *)
Theorem nominal_frequency_pivot_never_empty st q_list group_col res :
  nominal_frequency_pivot st q_list group_col = Ok res → res ≠ [].
Proof.
  intros (qloc & g & vloc & _ & _ & _ & Hne & Hperm)%nominal_frequency_pivot_inv
    Hnil.
  subst res. apply Permutation_nil_l in Hperm. symmetry in Hperm.
  unfold with_percentage in Hperm. by do 2 apply fmap_nil_inv in Hperm.
Qed.

Lemma nominal_frequency_pivot_never_empty_witness :
  [ mkEntry ["Q1"; "S1"; "Yes"] 2 (f64 (6667 # 100));
    mkEntry ["Q1"; "S2"; "No"] 1 (f64 (3333 # 100)) ] ≠ [].
Proof.
  apply (nominal_frequency_pivot_never_empty scenario ["Q1"] "subquestion").
  vm_compute. reflexivity.
Defined.

(** ** The order on keys *)

Lemma key_compare_antisym k1 k2 :
  key_compare k1 k2 = CompOpp (key_compare k2 k1).
Proof.
  revert k2. induction k1 as [|a k1 IH]; intros [|b k2]; try done.
  cbn [key_compare]. rewrite (String.compare_antisym a b).
  destruct (String.compare b a); simpl; [apply IH|done|done].
Qed.

Lemma key_compare_eq k1 k2 : key_compare k1 k2 = Eq → k1 = k2.
Proof.
  revert k2. induction k1 as [|a k1 IH]; intros [|b k2]; try done.
  cbn [key_compare].
  destruct (String.compare a b) eqn:E; try done.
  intros H. apply String.compare_eq_iff in E. f_equal; [done|by apply IH].
Qed.

Lemma string_compare_lt_trans a b c :
  String.compare a b = Lt → String.compare b c = Lt → String.compare a c = Lt.
Proof.
  intros H1 H2. apply OrderedTypeEx.String_as_OT.cmp_lt.
  eapply OrderedTypeEx.String_as_OT.lt_trans;
    by apply OrderedTypeEx.String_as_OT.cmp_lt.
Qed.

Lemma key_compare_lt_trans k1 k2 k3 :
  key_compare k1 k2 = Lt → key_compare k2 k3 = Lt → key_compare k1 k3 = Lt.
Proof.
  revert k2 k3.
  induction k1 as [|a k1 IH]; intros [|b k2] [|c k3]; try done.
  cbn [key_compare].
  destruct (String.compare a b) eqn:E1; try done;
    destruct (String.compare b c) eqn:E2; try done.
  - apply String.compare_eq_iff in E1 as ->. rewrite E2. apply IH.
  - apply String.compare_eq_iff in E1 as ->. by rewrite E2.
  - apply String.compare_eq_iff in E2 as <-. by rewrite E1.
  - by rewrite (string_compare_lt_trans a b c).
Qed.

Lemma key_le_total : Total key_le.
Proof.
  intros k1 k2. unfold key_le. rewrite (key_compare_antisym k2 k1).
  destruct (key_compare k1 k2); simpl; auto.
Qed.

Lemma key_le_antisym : AntiSymm (=) key_le.
Proof.
  intros k1 k2. unfold key_le. rewrite (key_compare_antisym k2 k1).
  destruct (key_compare k1 k2) eqn:E; simpl; try done.
  intros _ _. by apply key_compare_eq.
Qed.

Lemma key_le_trans : Transitive key_le.
Proof.
  intros k1 k2 k3. unfold key_le.
  destruct (key_compare k1 k2) eqn:E1; [|..|done].
  - by apply key_compare_eq in E1 as ->.
  - destruct (key_compare k2 k3) eqn:E2; [|..|done].
    + apply key_compare_eq in E2 as <-. by rewrite E1.
    + by rewrite (key_compare_lt_trans k1 k2 k3).
Qed.

Lemma entry_le_total : Total entry_le.
Proof. intros e1 e2. apply key_le_total. Qed.

Lemma level_le_total n : Total (level_le n).
Proof. intros e1 e2. apply key_le_total. Qed.

(** ** Shape and order of the results *)

Lemma mapM_result_length {A B} (f : A → result B) l l' :
  mapM f l = Ok l' → length l' = length l.
Proof.
  revert l'. induction l as [|a l IH]; intros l' H.
  - by injection H as <-.
  - cbn [mapM] in H. bind_inv H b Hb. bind_inv H bs Hbs.
    injection H as <-. simpl. f_equal. by apply IH.
Qed.

Lemma row_key_length locs r k :
  row_key locs r = Some k → length k = length locs.
Proof.
  unfold row_key. revert k. induction locs as [|i locs IH]; intros k H.
  - by injection H as <-.
  - cbn [mapM] in H. destruct (at_loc r i) as [v|]; [|done]. simpl in H.
    destruct (mapM (at_loc r) locs) as [k'|]; [|done]. simpl in H.
    injection H as <-. simpl. f_equal. by apply IH.
Qed.

Lemma groupby_key_length locs rows g :
  g ∈ groupby locs rows → length g.1 = length locs.
Proof.
  intros [(r & _ & Hk)%list_elem_of_omap _]%groupby_elem.
  by eapply row_key_length.
Qed.

Lemma with_percentage_keys counts : key <$> with_percentage counts = counts.*1.
Proof.
  unfold with_percentage. rewrite <- list_fmap_compose.
  by apply list_fmap_ext.
Qed.

(** X8: the table returned by each frequency method has one row per
    distinct key; when the grouping labels are columns of the held
    table, every key has one value per grouping label: [group_cols],
    question and subquestion for [multi_response_analysis], question,
    group and answer for the two nominal methods. *)
Theorem result_keys_distinct st q_list group_cols group_col :
  (∀ res, multi_response_analysis st q_list group_cols = Ok res →
          NoDup (key <$> res) ∧
          (Forall (fun k => k ∈ columns (df st)) group_cols →
           subquest_col st ∈ columns (df st) →
           ∀ e, e ∈ res → length (key e) = (length group_cols + 2)%nat)) ∧
  (∀ res, nominal_frequency_analysis st q_list group_col = Ok res →
          NoDup (key <$> res) ∧
          (group_col ∈ columns (df st) → answer_col st ∈ columns (df st) →
           ∀ e, e ∈ res → length (key e) = 3%nat)) ∧
  (∀ res, nominal_frequency_pivot st q_list group_col = Ok res →
          NoDup (key <$> res) ∧
          (group_col ∈ columns (df st) → answer_col st ∈ columns (df st) →
           ∀ e, e ∈ res → length (key e) = 3%nat)).
Proof.
  split; [|split].
  - intros res
      (qloc & g & rloc & Hq & Hg & _ & _ & _ & Hperm)%multi_response_analysis_inv.
    split.
    + rewrite Hperm, <- list_fmap_compose.
      erewrite list_fmap_ext; [apply groups_keys_NoDup|done].
    + intros Hgc Hsc e He. rewrite Hperm in He.
      apply list_elem_of_fmap in He as (grp & -> & Hgrp). simpl.
      rewrite resolve_keys_columns in Hg.
      2:{ apply Forall_app. split; [done|].
          repeat constructor; [by eapply get_loc_present|done]. }
      bind_inv Hg locs Hl. injection Hg as <-.
      rewrite (groupby_key_length _ _ _ Hgrp), (mapM_result_length _ _ _ Hl).
      rewrite length_app. simpl. lia.
  - intros res (qloc & g & Hq & Hg & _ & Hperm)%nominal_frequency_analysis_inv.
    split.
    + rewrite Hperm, with_percentage_keys, <- list_fmap_compose.
      erewrite list_fmap_ext; [apply groups_keys_NoDup|done].
    + intros Hgc Hac e He. rewrite Hperm in He.
      apply with_percentage_elem in He as (kc & Hkc & ->).
      apply list_elem_of_fmap in Hkc as (grp & -> & Hgrp). simpl.
      rewrite resolve_keys_columns in Hg
        by (repeat constructor; [by eapply get_loc_present|done..]).
      bind_inv Hg locs Hl. injection Hg as <-.
      by rewrite (groupby_key_length _ _ _ Hgrp), (mapM_result_length _ _ _ Hl).
  - intros res
      (qloc & g & vloc & Hq & Hg & _ & _ & Hperm)%nominal_frequency_pivot_inv.
    split.
    + rewrite Hperm, with_percentage_keys, <- list_fmap_compose.
      erewrite list_fmap_ext; [apply groups_keys_NoDup|done].
    + intros Hgc Hac e He. rewrite Hperm in He.
      apply with_percentage_elem in He as (kc & Hkc & ->).
      apply list_elem_of_fmap in Hkc as (grp & -> & Hgrp). simpl.
      rewrite resolve_keys_columns in Hg
        by (repeat constructor; [by eapply get_loc_present|done..]).
      bind_inv Hg locs Hl. injection Hg as <-.
      by rewrite (groupby_key_length _ _ _ Hgrp), (mapM_result_length _ _ _ Hl).
Qed.

Lemma result_keys_distinct_witness :
  length (key (mkEntry ["Q1"; "S1"; "Yes"] 2 (f64 (6667 # 100)))) = 3%nat.
Proof.
  refine (proj2 (proj2 (proj2 (result_keys_distinct scenario ["Q1"] []
                                 "subquestion")) _ _) _ _ _ _).
  - vm_compute. reflexivity.
  - by_evaluation.
  - by_evaluation.
  - left.
Defined.

(** When the filtered table has as many rows as there are grouping keys
    and one key is not a column, pandas reads the keys as one label per
    row; the final sort then fails on the question label, unless that
    label names a value column of the result: then the call returns a
    table keyed by the labels and sorted by that column. *)
Lemma multi_response_sorted_by_values :
  mapM (get_loc (columns (df named_response_count)))
       [question_col named_response_count; subquest_col named_response_count]
  = Raise (KeyError "Percentage (%)") ∧
  multi_response_analysis named_response_count ["Q1"] []
  = Ok [ mkEntry ["Response Count"] 0 (f64 0);
         mkEntry ["Percentage (%)"] 1 (f64 25) ] ∧
  ¬ Sorted entry_le [ mkEntry ["Response Count"] 0 (f64 0);
                      mkEntry ["Percentage (%)"] 1 (f64 25) ].
Proof.
  split; [by vm_compute|]. split; [by vm_compute|].
  intros Hs. apply Sorted_inv in Hs as [_ Hhd].
  apply HdRel_inv in Hhd. by vm_compute in Hhd.
Qed.

Lemma nominal_sorted_by_values :
  mapM (get_loc (columns (df named_count)))
       [question_col named_count; "A"; answer_col named_count]
  = Raise (KeyError "A") ∧
  nominal_frequency_analysis named_count ["Q1"] "A"
  = Ok [ mkEntry ["Count"] 1 (f64 100); mkEntry ["A"] 2 (f64 100) ] ∧
  ¬ Sorted (level_le 1) [ mkEntry ["Count"] 1 (f64 100);
                           mkEntry ["A"] 2 (f64 100) ].
Proof.
  split; [by vm_compute|]. split; [by vm_compute|].
  intros Hs. apply Sorted_inv in Hs as [_ Hhd].
  apply HdRel_inv in Hhd. by vm_compute in Hhd.
Qed.

(** X9: [multi_response_analysis] and [nominal_frequency_analysis]
    called on an instance whose question column is not named like a
    value column of their result return their rows in ascending order of
    the whole key and of the question; [nominal_frequency_pivot] always
    returns its rows in ascending order of the whole key. *)
Theorem results_sorted st q_list group_cols group_col :
  (∀ res, question_col st ∉ ["Response Count"; "Percentage (%)"] →
          multi_response_analysis st q_list group_cols = Ok res →
          Sorted entry_le res) ∧
  (∀ res, question_col st ∉ ["Count"; "Percentage (%)"] →
          nominal_frequency_analysis st q_list group_col = Ok res →
          Sorted (level_le 1) res) ∧
  (∀ res, nominal_frequency_pivot st q_list group_col = Ok res →
          Sorted entry_le res).
Proof.
  pose proof entry_le_total as Htot. pose proof (level_le_total 1) as Htot1.
  split; [|split]; intros res.
  - intros Hname H.
    destruct (multi_response_analysis_by_columns _ _ _ _ Hname H)
      as (qloc & locs & rloc & Hq & Hl & Hr & _).
    unfold multi_response_analysis in H. cbv zeta in H.
    rewrite Hq in H. cbn [mbind result_bind] in H.
    rewrite resolve_keys_columns, Hl in H by by eapply mapM_get_loc_present.
    cbn [mbind result_bind] in H. bind_inv H rloc' Hr'. bind_inv H t Ht.
    bind_inv H u Hu. injection H as <-. by apply Sorted_merge_sort.
  - intros Hname H.
    destruct (nominal_frequency_analysis_by_columns _ _ _ _ Hname H)
      as (qloc & locs & Hq & Hl & _).
    unfold nominal_frequency_analysis in H. cbv zeta in H.
    rewrite Hq in H. cbn [mbind result_bind] in H.
    rewrite resolve_keys_columns, Hl in H by by eapply mapM_get_loc_present.
    cbn [mbind result_bind] in H. bind_inv H u Hu.
    injection H as <-. by apply Sorted_merge_sort.
  - intros H. unfold nominal_frequency_pivot in H. cbv zeta in H.
    bind_inv H qloc Hq. bind_inv H pv Hpv. destruct pv as [vc counts].
    destruct (positions _ _ _) as [|c [|c' cs]]; [done| |done].
    injection H as <-. by apply Sorted_merge_sort.
Qed.

Lemma results_sorted_witness :
  Sorted entry_le [ mkEntry ["Q1"; "S1"] 2 (Fin (50 # 1));
                    mkEntry ["Q1"; "S2"] 1 (Fin (25 # 1)) ].
Proof.
  refine (proj1 (results_sorted scenario ["Q1"] [] "subquestion") _ _ _).
  - by_evaluation.
  - vm_compute. reflexivity.
Defined.

(** ** Independence of the order and of the repetition of rows *)

Lemma groupby_keys_ext locs (rows1 rows2 : list (list cell)) :
  (∀ r, r ∈ rows1 ↔ r ∈ rows2) →
  merge_sort key_le (remove_dups (omap (row_key locs) rows1))
  = merge_sort key_le (remove_dups (omap (row_key locs) rows2)).
Proof.
  intros Hrows.
  pose proof key_le_total. pose proof key_le_trans. pose proof key_le_antisym.
  apply (Sorted_unique key_le); [by apply Sorted_merge_sort..|].
  rewrite !merge_sort_Permutation.
  apply NoDup_Permutation; [apply NoDup_remove_dups..|].
  intros k. rewrite !elem_of_remove_dups, !list_elem_of_omap.
  split; intros (r & Hr & Hk); exists r; split; try done; by apply Hrows.
Qed.

(** Two tables with the same rows, each aggregated alike within every
    group, give the same aggregated groups. *)
Lemma groupby_agg_ext {B} (agg : list (list cell) → B) locs
    (rows1 rows2 : list (list cell)) :
  (∀ r, r ∈ rows1 ↔ r ∈ rows2) →
  (∀ k, agg (filter (fun r => row_key locs r = Some k) rows1)
        = agg (filter (fun r => row_key locs r = Some k) rows2)) →
  (fun g => (g.1, agg g.2)) <$> groupby locs rows1
  = (fun g => (g.1, agg g.2)) <$> groupby locs rows2.
Proof.
  intros Hrows Hagg. unfold groupby.
  rewrite <- !list_fmap_compose, (groupby_keys_ext locs rows1 rows2 Hrows).
  apply list_fmap_ext. intros i k _. simpl. by rewrite Hagg.
Qed.

Lemma filter_isin_elem i q_list rows r :
  r ∈ filter_isin i q_list rows ↔ isin q_list (at_loc r i) = true ∧ r ∈ rows.
Proof. unfold filter_isin. by rewrite list_elem_of_filter. Qed.

Lemma nunique_ext (cells1 cells2 : list cell) :
  (∀ x, Some x ∈ cells1 ↔ Some x ∈ cells2) → nunique cells1 = nunique cells2.
Proof.
  intros H. apply Z.le_antisymm; apply nunique_mono; intros x; apply H.
Qed.

(** The sizes of the groups of a label vector depend on the number of
    rows only. *)
Lemma zip_filter_label_length {A} (k : list string) (labels : list string)
    (rows1 rows2 : list A) :
  length rows1 = length rows2 →
  length (filter (fun lr => [lr.1] = k) (zip labels rows1))
  = length (filter (fun lr => [lr.1] = k) (zip labels rows2)).
Proof.
  revert rows1 rows2.
  induction labels as [|l labels IH]; intros [|r1 rows1] [|r2 rows2] Hlen;
    try done.
  simpl in Hlen. injection Hlen as Hlen. simpl. rewrite !filter_cons. simpl.
  case_decide; simpl; by rewrite (IH rows1 rows2 Hlen).
Qed.

Lemma groupby_labels_size_ext labels (rows1 rows2 : list (list cell)) :
  length rows1 = length rows2 →
  (fun grp => (grp.1, Z.of_nat (length grp.2))) <$> groupby_labels labels rows1
  = (fun grp : list string * list (list cell) =>
       (grp.1, Z.of_nat (length grp.2))) <$> groupby_labels labels rows2.
Proof.
  intros Hlen. unfold groupby_labels. rewrite <- !list_fmap_compose.
  apply list_fmap_ext. intros i k _. unfold compose. cbn [fst snd].
  rewrite !length_fmap. do 2 f_equal.
  by apply zip_filter_label_length.
Qed.

Lemma multi_response_rows_ext st rows' q_list group_cols :
  Forall (fun k => k ∈ columns (df st))
         (group_cols ++ [question_col st; subquest_col st]) →
  (∀ r, r ∈ data (df st) ↔ r ∈ rows') →
  multi_response_analysis (set_data st rows') q_list group_cols
  = multi_response_analysis st q_list group_cols.
Proof.
  intros Hcols Hrows. unfold multi_response_analysis. cbv zeta.
  change (columns (df (set_data st rows'))) with (columns (df st)).
  change (data (df (set_data st rows'))) with rows'.
  change (question_col (set_data st rows')) with (question_col st).
  change (subquest_col (set_data st rows')) with (subquest_col st).
  change (respondent_col (set_data st rows')) with (respondent_col st).
  change (total_respondents (set_data st rows')) with (total_respondents st).
  destruct (get_loc _ (question_col st)) as [qloc|]; [|done].
  cbn [mbind result_bind]. rewrite !resolve_keys_columns by done.
  destruct (mapM (get_loc _) _) as [locs|]; [|done].
  cbn [mbind result_bind groups index_names].
  destruct (select_column _ _) as [rloc|]; [|done].
  cbn [mbind result_bind].
  rewrite (groupby_agg_ext
             (fun rows => nunique ((fun r => at_loc r rloc) <$> rows)) locs
             (filter_isin qloc q_list rows')
             (filter_isin qloc q_list (data (df st)))); [done|..].
  - intros r. rewrite !filter_isin_elem. by rewrite Hrows.
  - intros k. apply nunique_ext. intros x. rewrite !list_elem_of_fmap.
    split; intros (r & Hx & Hr); exists r; (split; [done|]);
      rewrite list_elem_of_filter, filter_isin_elem in Hr |- *;
      by rewrite Hrows in *.
Qed.

(** X10: on a table that has the grouping columns,
    [multi_response_analysis] depends on the rows only as a set:
    repeating a row any number of times, or reordering the rows, does
    not change its result. *)
Theorem multi_response_ignores_duplicate_rows st rows' q_list group_cols :
  Forall (fun k => k ∈ columns (df st))
         (group_cols ++ [question_col st; subquest_col st]) →
  (∀ r, r ∈ data (df st) ↔ r ∈ rows') →
  multi_response_analysis (set_data st rows') q_list group_cols
  = multi_response_analysis st q_list group_cols.
Proof. apply multi_response_rows_ext. Qed.

Lemma multi_response_ignores_duplicate_rows_witness :
  multi_response_analysis
    (set_data scenario
       [ [Some "Q1"; Some "S2"; Some "R1"; Some "No"];
         [Some "Q1"; Some "S1"; Some "R2"; Some "Yes"];
         [Some "Q1"; Some "S1"; Some "R1"; Some "Yes"];
         [Some "Q1"; Some "S1"; Some "R2"; Some "Yes"] ]) ["Q1"] []
  = multi_response_analysis scenario ["Q1"] [].
Proof.
  apply (multi_response_ignores_duplicate_rows scenario).
  - by_evaluation.
  - intros r. simpl. rewrite !elem_of_cons, !elem_of_nil. tauto.
Defined.

Lemma filter_isin_Permutation i q_list rows1 rows2 :
  rows1 ≡ₚ rows2 → filter_isin i q_list rows1 ≡ₚ filter_isin i q_list rows2.
Proof. intros H. unfold filter_isin. by rewrite H. Qed.

(** X11: reordering the rows of the held table does not change the
    result of [nominal_frequency_analysis]; nor that of
    [multi_response_analysis], unless the question column is named like
    a value column of the result; nor that of [nominal_frequency_pivot]
    on a table that has the group and answer columns. *)
Theorem row_order_irrelevant st rows' q_list group_cols group_col :
  data (df st) ≡ₚ rows' →
  (question_col st ∉ ["Response Count"; "Percentage (%)"] →
   multi_response_analysis (set_data st rows') q_list group_cols
   = multi_response_analysis st q_list group_cols) ∧
  nominal_frequency_analysis (set_data st rows') q_list group_col
  = nominal_frequency_analysis st q_list group_col ∧
  (group_col ∈ columns (df st) → answer_col st ∈ columns (df st) →
   nominal_frequency_pivot (set_data st rows') q_list group_col
   = nominal_frequency_pivot st q_list group_col).
Proof.
  intros Hperm.
  assert (Hfp : ∀ qloc, filter_isin qloc q_list rows'
                        ≡ₚ filter_isin qloc q_list (data (df st)))
    by (intros qloc; by apply filter_isin_Permutation).
  assert (Hfs : ∀ qloc r, r ∈ filter_isin qloc q_list rows'
                          ↔ r ∈ filter_isin qloc q_list (data (df st)))
    by (intros qloc r; by rewrite Hfp).
  split; [|split].
  - intros Hname. unfold multi_response_analysis. cbv zeta.
    change (columns (df (set_data st rows'))) with (columns (df st)).
    change (data (df (set_data st rows'))) with rows'.
    change (question_col (set_data st rows')) with (question_col st).
    change (subquest_col (set_data st rows')) with (subquest_col st).
    change (respondent_col (set_data st rows')) with (respondent_col st).
    change (total_respondents (set_data st rows')) with (total_respondents st).
    destruct (get_loc _ (question_col st)) as [qloc|]; [|done].
    cbn [mbind result_bind]. unfold resolve_keys.
    rewrite (Permutation_length (Hfp qloc)). case_decide as Hd.
    + cbn [mbind result_bind groups index_names].
      destruct (select_column _ _) as [rloc|]; [|done].
      cbn [mbind result_bind].
      destruct (float_scalar _) as [t|]; [|done]. cbn [mbind result_bind].
      destruct (mapM (check_sort_label [] _) _) as [us|e] eqn:Hus; [|done].
      by apply multi_response_sort_unnamed in Hus.
    + destruct (mapM (get_loc _) _) as [locs|]; [|done].
      cbn [mbind result_bind groups index_names].
      destruct (select_column _ _) as [rloc|]; [|done].
      cbn [mbind result_bind].
      rewrite (groupby_agg_ext
                 (fun rows => nunique ((fun r => at_loc r rloc) <$> rows)) locs
                 _ _ (Hfs qloc)); [done|].
      intros k. apply nunique_ext. intros x. rewrite !list_elem_of_fmap.
      split; intros (r & Hx & Hr); exists r; (split; [done|]);
        rewrite list_elem_of_filter in Hr |- *; destruct Hr as [Hk Hr];
        (split; [done|]); by apply Hfs.
  - unfold nominal_frequency_analysis. cbv zeta.
    change (columns (df (set_data st rows'))) with (columns (df st)).
    change (data (df (set_data st rows'))) with rows'.
    change (question_col (set_data st rows')) with (question_col st).
    change (answer_col (set_data st rows')) with (answer_col st).
    destruct (get_loc _ (question_col st)) as [qloc|]; [|done].
    cbn [mbind result_bind]. unfold resolve_keys.
    rewrite (Permutation_length (Hfp qloc)). case_decide as Hd.
    + cbn [mbind result_bind groups index_names].
      by rewrite (groupby_labels_size_ext _ _ _ (Permutation_length (Hfp qloc))).
    + destruct (mapM (get_loc _) _) as [locs|]; [|done].
      cbn [mbind result_bind groups index_names].
      rewrite (groupby_agg_ext (fun rows => Z.of_nat (length rows)) locs
                 _ _ (Hfs qloc)); [done|].
      intros k. by rewrite (Hfp qloc).
  - intros Hgc Hac. unfold nominal_frequency_pivot, pivot_table_count.
    cbv zeta.
    change (columns (df (set_data st rows'))) with (columns (df st)).
    change (data (df (set_data st rows'))) with rows'.
    change (question_col (set_data st rows')) with (question_col st).
    change (answer_col (set_data st rows')) with (answer_col st).
    change (respondent_col (set_data st rows')) with (respondent_col st).
    destruct (get_loc _ (question_col st)) as [qloc|] eqn:Hq; [|done].
    cbn [mbind result_bind]. case_decide; [|done].
    rewrite !resolve_keys_columns
      by (repeat constructor; [by eapply get_loc_present|done..]).
    destruct (mapM (pivot_loc _ _ _) _) as [locs|]; [|done].
    cbn [mbind result_bind groups].
    rewrite (groupby_agg_ext
               (fun rows =>
                  count_notna
                    ((fun r =>
                        at_loc r
                          (default 0%nat
                             (head (positions (respondent_col st)
                                      (columns (df st)) 0))))
                       <$> rows))
               locs _ _ (Hfs qloc)); [done|].
    intros k. unfold count_notna. by rewrite (Hfp qloc).
Qed.

Lemma row_order_irrelevant_witness :
  let rows' := [ [Some "Q1"; Some "S2"; Some "R1"; Some "No"];
                 [Some "Q1"; Some "S1"; Some "R2"; Some "Yes"];
                 [Some "Q1"; Some "S1"; Some "R1"; Some "Yes"] ] in
  nominal_frequency_pivot (set_data scenario rows') ["Q1"] "subquestion"
  = nominal_frequency_pivot scenario ["Q1"] "subquestion".
Proof.
  refine (proj2 (proj2 (row_order_irrelevant scenario _ ["Q1"] []
                          "subquestion" _)) _ _).
  - simpl. apply NoDup_Permutation.
    + by_evaluation.
    + by_evaluation.
    + intros r. rewrite !elem_of_cons, !elem_of_nil. tauto.
  - by_evaluation.
  - by_evaluation.
Defined.

(** ** Counting *)

Lemma has_key_in_iff locs ks r :
  has_key_in locs ks r ↔ ∃ k, k ∈ ks ∧ row_key locs r = Some k.
Proof.
  unfold has_key_in. destruct (row_key locs r) as [k|].
  - split; [eauto|]. by intros (k' & Hk' & [= ->]).
  - split; [done|]. by intros (k' & _ & ?).
Qed.

(** One row adds one to the size of exactly one group, the one of its
    key, when that key is listed. *)
Lemma group_sizes_cons locs r (rows : list (list cell)) ks :
  NoDup ks →
  zsum ((fun k => Z.of_nat (length
          (filter (fun r => row_key locs r = Some k) (r :: rows)))) <$> ks)
  = ((if decide (has_key_in locs ks r) then 1 else 0)
     + zsum ((fun k => Z.of_nat (length
          (filter (fun r => row_key locs r = Some k) rows))) <$> ks))%Z.
Proof.
  induction ks as [|k ks IH]; intros Hnd.
  - simpl. rewrite decide_False; [done|].
    rewrite has_key_in_iff. intros (k & Hk & _). by apply elem_of_nil in Hk.
  - apply NoDup_cons in Hnd as [Hk Hnd]. rewrite !fmap_cons.
    cbn [zsum foldr].
    change (foldr Z.add 0%Z ?l) with (zsum l).
    rewrite (IH Hnd), filter_cons.
    destruct (decide (row_key locs r = Some k)) as [Hr|Hr].
    + rewrite (decide_True (P := has_key_in locs (k :: ks) r)).
      2:{ apply has_key_in_iff. exists k. split; [left|done]. }
      rewrite (decide_False (P := has_key_in locs ks r)).
      2:{ rewrite has_key_in_iff. intros (k' & Hk' & Hr'). congruence. }
      simpl length. lia.
    + destruct (decide (has_key_in locs ks r)) as [Hin|Hnin].
      * rewrite (decide_True (P := has_key_in locs (k :: ks) r)); [lia|].
        apply has_key_in_iff in Hin as (k' & Hk' & Hr').
        apply has_key_in_iff. exists k'. split; [by right|done].
      * rewrite (decide_False (P := has_key_in locs (k :: ks) r)); [lia|].
        rewrite has_key_in_iff.
        intros (k' & [->|Hk']%elem_of_cons & Hr'); [done|].
        apply Hnin, has_key_in_iff. eauto.
Qed.

Lemma group_sizes_partition locs (rows : list (list cell)) ks :
  NoDup ks →
  zsum ((fun k => Z.of_nat (length
          (filter (fun r => row_key locs r = Some k) rows))) <$> ks)
  = Z.of_nat (length (filter (has_key_in locs ks) rows)).
Proof.
  intros Hnd. induction rows as [|r rows IH].
  - clear Hnd. induction ks as [|k ks IHk]; [done|].
    rewrite fmap_cons. cbn [zsum foldr].
    change (foldr Z.add 0%Z ?l) with (zsum l). by rewrite IHk.
  - rewrite group_sizes_cons, IH, filter_cons by done.
    case_decide; [simpl length|]; lia.
Qed.

Lemma filter_iff_in {A} (P1 P2 : A → Prop)
    `{!∀ x, Decision (P1 x), !∀ x, Decision (P2 x)} (l : list A) :
  (∀ x, x ∈ l → P1 x ↔ P2 x) → filter P1 l = filter P2 l.
Proof.
  induction l as [|a l IH]; intros Hiff; [done|].
  rewrite !filter_cons.
  rewrite IH by (intros x Hx; apply Hiff; by right).
  destruct (decide (P1 a)) as [Ha|Ha].
  - rewrite decide_True; [done|]. apply Hiff; [left|done].
  - rewrite decide_False; [done|].
    intros Ha'. apply Ha, Hiff; [left|done].
Qed.

(** The keys listed by [groupby] are those of the rows that have one. *)
Lemma has_key_in_groupby locs (rows : list (list cell)) :
  filter (has_key_in locs
            (merge_sort key_le (remove_dups (omap (row_key locs) rows)))) rows
  = filter (fun r => is_Some (row_key locs r)) rows.
Proof.
  apply filter_iff_in. intros r Hr. rewrite has_key_in_iff. split.
  - intros (k & _ & Hk). by rewrite Hk.
  - intros [k Hk]. exists k. split; [|done].
    rewrite merge_sort_Permutation, elem_of_remove_dups, list_elem_of_omap.
    eauto.
Qed.

(** X12: unless the question column is named like a value column of
    the result, the counts returned by [nominal_frequency_analysis] add
    up to the number of filtered rows that carry a question, a group and
    an answer value: every such row is counted exactly once, and the
    rows with a missing key value are the only ones left out. *)
Theorem nominal_counts_conserve_rows st q_list group_col res :
  question_col st ∉ ["Count"; "Percentage (%)"] →
  nominal_frequency_analysis st q_list group_col = Ok res →
  ∃ qloc locs,
    get_loc (columns (df st)) (question_col st) = Ok qloc ∧
    mapM (get_loc (columns (df st)))
         [question_col st; group_col; answer_col st] = Ok locs ∧
    zsum (Count <$> res)
    = Z.of_nat (length (filter (fun r => is_Some (row_key locs r))
                          (filter_isin qloc q_list (data (df st))))).
Proof.
  intros Hname Hres.
  destruct (nominal_frequency_analysis_by_columns _ _ _ _ Hname Hres)
    as (qloc & locs & Hq & Hl & Hperm).
  exists qloc, locs. split; [done|]. split; [done|].
  rewrite (zsum_Permutation _ _ (fmap_Permutation Count _ _ Hperm)).
  unfold with_percentage, groupby. rewrite <- !list_fmap_compose.
  erewrite list_fmap_ext; [rewrite group_sizes_partition|by intros].
  - by rewrite has_key_in_groupby.
  - rewrite merge_sort_Permutation. apply NoDup_remove_dups.
Qed.

Lemma nominal_counts_conserve_rows_witness :
  ∃ qloc locs,
    get_loc (columns (df scenario)) (question_col scenario) = Ok qloc ∧
    mapM (get_loc (columns (df scenario)))
         [question_col scenario; "subquestion"; answer_col scenario]
    = Ok locs ∧
    zsum (Count <$> [ mkEntry ["Q1"; "S1"; "Yes"] 2 (f64 (6667 # 100));
                      mkEntry ["Q1"; "S2"; "No"] 1 (f64 (3333 # 100)) ])
    = Z.of_nat (length (filter (fun r => is_Some (row_key locs r))
                          (filter_isin qloc ["Q1"] (data (df scenario))))).
Proof.
  apply (nominal_counts_conserve_rows scenario ["Q1"] "subquestion").
  - by_evaluation.
  - vm_compute. reflexivity.
Defined.

(** ** Range of the percentages *)

(** A count between 0 and a positive denominator gives a finite
    percentage between 0 and 100. *)
Lemma percent_range (c t : Z) :
  (0 ≤ c ≤ t)%Z → (0 < t)%Z →
  ∃ p, percent c t = Fin p ∧ (0 <= p)%Q ∧ (p <= 100)%Q.
Proof.
  intros Hc Ht.
  destruct (percent_value c t Hc Ht) as (p & Hp & H0 & H1 & _). eauto.
Qed.

(** X13: every row returned by [nominal_frequency_analysis] has a
    count of at least 1 and a finite percentage between 0 and 100. *)
Theorem nominal_percentages_in_range st q_list group_col res e :
  nominal_frequency_analysis st q_list group_col = Ok res → e ∈ res →
  (1 ≤ Count e)%Z ∧
  ∃ p, Percentage e = Fin p ∧ (0 <= p)%Q ∧ (p <= 100)%Q.
Proof.
  intros (qloc & g & Hq & Hg & _ & Hperm)%nominal_frequency_analysis_inv He.
  rewrite Hperm in He. apply with_percentage_elem in He as (kc & Hkc & ->).
  cbn [Count Percentage].
  set (raw := (fun grp => (grp.1, Z.of_nat (length grp.2)))
                <$> groups g (filter_isin qloc q_list (data (df st))))
    in *.
  assert (Hpos : ∀ kc', kc' ∈ raw → (1 ≤ kc'.2)%Z).
  { intros kc' (grp & -> & Hgrp)%list_elem_of_fmap. simpl.
    pose proof (groups_nonempty _ _ _ _ _ _ Hg Hgrp). lia. }
  pose proof (Hpos kc Hkc) as Hc. split; [done|].
  apply percent_range; [|].
  - split; [lia|]. unfold level0_total. apply zsum_elem_le.
    + apply list_elem_of_fmap. exists kc. split; [done|].
      by apply list_elem_of_filter.
    + apply Forall_fmap, Forall_forall.
      intros kc' [_ Hin]%list_elem_of_filter. simpl.
      specialize (Hpos kc' Hin). lia.
  - assert (kc.2 ≤ level0_total raw kc.1)%Z; [|lia].
    unfold level0_total. apply zsum_elem_le.
    + apply list_elem_of_fmap. exists kc. split; [done|].
      by apply list_elem_of_filter.
    + apply Forall_fmap, Forall_forall.
      intros kc' [_ Hin]%list_elem_of_filter. simpl.
      specialize (Hpos kc' Hin). lia.
Qed.

Lemma nominal_percentages_in_range_witness :
  (1 ≤ Count (mkEntry ["Q1"; "S1"; "Yes"] 2 (f64 (6667 # 100))))%Z ∧
  ∃ p, Percentage (mkEntry ["Q1"; "S1"; "Yes"] 2 (f64 (6667 # 100))) = Fin p ∧
       (0 <= p)%Q ∧ (p <= 100)%Q.
Proof.
  refine (nominal_percentages_in_range scenario ["Q1"] "subquestion" _ _ _ _).
  - vm_compute. reflexivity.
  - left.
Defined.

(** The count of a group is at most the number of distinct respondents
    of the filtered table. *)
Lemma group_count_le_filtered rloc g (rows : list (list cell)) grp :
  grp ∈ groups g rows →
  (nunique ((fun r => at_loc r rloc) <$> grp.2)
   ≤ nunique ((fun r => at_loc r rloc) <$> rows))%Z.
Proof.
  intros Hgrp. apply nunique_mono. intros x.
  rewrite !list_elem_of_fmap. intros (r & Hx & Hin). exists r.
  split; [done|]. by eapply groups_rows.
Qed.

(** X14: when [total_respondents] is positive and not below the number
    of distinct respondent identifiers of the filtered table, every
    percentage returned by [multi_response_analysis] is a finite value
    between 0 and 100. *)
Theorem multi_response_percentages_in_range st q_list group_cols res n e :
  multi_response_analysis st q_list group_cols = Ok res →
  filtered_respondents st q_list = Ok n →
  (0 < total_respondents st)%Z → (n ≤ total_respondents st)%Z →
  e ∈ res →
  ∃ p, Percentage e = Fin p ∧ (0 <= p)%Q ∧ (p <= 100)%Q.
Proof.
  intros (qloc & g & rloc & Hq & Hg & Hr & _ & _ & Hperm)%multi_response_analysis_inv
    Hn Hpos Hle He.
  unfold filtered_respondents in Hn. rewrite Hq in Hn. simpl in Hn.
  rewrite Hr in Hn. simpl in Hn. injection Hn as <-.
  rewrite Hperm in He. apply list_elem_of_fmap in He as (grp & -> & Hgrp).
  cbn [Percentage]. apply percent_range; [|done].
  pose proof (group_count_le_filtered rloc _ _ _ Hgrp).
  split; [unfold nunique|]; lia.
Qed.

Lemma multi_response_percentages_in_range_witness :
  ∃ p, Percentage (mkEntry ["Q1"; "S1"] 2 (Fin (50 # 1))) = Fin p ∧
       (0 <= p)%Q ∧ (p <= 100)%Q.
Proof.
  refine (multi_response_percentages_in_range scenario ["Q1"] [] _ 2 _
            _ _ _ _ _).
  - vm_compute. reflexivity.
  - vm_compute. reflexivity.
  - reflexivity.
  - vm_compute. discriminate.
  - left.
Defined.

(** ** The two nominal methods side by side *)

Lemma scenario_respondents_present r :
  r ∈ data (df scenario) →
  ∃ v, cell_at (df scenario) r (respondent_col scenario) v.
Proof.
  intros Hr. unfold cell_at. simpl in *.
  repeat (apply elem_of_cons in Hr as [->|Hr]);
    [by exists "R1", 2%nat|by exists "R2", 2%nat|by exists "R1", 2%nat|].
  by apply elem_of_nil in Hr.
Qed.

(** X15: on a table whose respondent column has no missing value,
    [nominal_frequency_analysis] and [nominal_frequency_pivot] return
    the same rows, up to their order, whenever both return. *)
Theorem nominal_methods_agree st q_list group_col res1 res2 :
  (∀ r, r ∈ data (df st) → ∃ v, cell_at (df st) r (respondent_col st) v) →
  nominal_frequency_analysis st q_list group_col = Ok res1 →
  nominal_frequency_pivot st q_list group_col = Ok res2 →
  res1 ≡ₚ res2.
Proof. apply nominal_frequency_agree. Qed.

Lemma nominal_methods_agree_witness :
  [ mkEntry ["Q1"; "S1"; "Yes"] 2 (f64 (6667 # 100));
    mkEntry ["Q1"; "S2"; "No"] 1 (f64 (3333 # 100)) ]
  ≡ₚ [ mkEntry ["Q1"; "S1"; "Yes"] 2 (f64 (6667 # 100));
       mkEntry ["Q1"; "S2"; "No"] 1 (f64 (3333 # 100)) ].
Proof.
  refine (nominal_methods_agree scenario ["Q1"] "subquestion" _ _
            scenario_respondents_present _ _);
    vm_compute; reflexivity.
Defined.

Lemma count_notna_bounds (cells : list cell) :
  (0 ≤ count_notna cells ≤ Z.of_nat (length cells))%Z.
Proof.
  unfold count_notna. split; [lia|]. apply inj_le.
  induction cells as [|[v|] cells IH]; [done|..].
  - change (omap id (Some v :: cells)) with (v :: omap id cells).
    simpl length. lia.
  - change (omap id (None :: cells)) with (omap id cells).
    simpl length. lia.
Qed.

(** X16: whenever both nominal methods return, they list the same
    keys, and for every key the count of [nominal_frequency_pivot] (the
    respondent values present) is between 0 and the count of
    [nominal_frequency_analysis] (the rows). *)
Theorem pivot_count_at_most_rows st q_list group_col res1 res2 :
  nominal_frequency_analysis st q_list group_col = Ok res1 →
  nominal_frequency_pivot st q_list group_col = Ok res2 →
  key <$> res1 ≡ₚ key <$> res2 ∧
  ∀ e2, e2 ∈ res2 →
        ∃ e1, e1 ∈ res1 ∧ key e1 = key e2 ∧ (0 ≤ Count e2 ≤ Count e1)%Z.
Proof.
  intros (qloc & gr & Hq & Hgr & _ & Hp1)%nominal_frequency_analysis_inv
    (qloc' & gr' & vloc & Hq' & Hgr' & Hv & _ & Hp2)%nominal_frequency_pivot_inv.
  assert (qloc' = qloc) as -> by congruence.
  assert (gr' = gr) as -> by congruence.
  split.
  - rewrite Hp1, Hp2, !with_percentage_keys, <- !list_fmap_compose.
    erewrite list_fmap_ext; [done|by intros].
  - intros e2 He2. rewrite Hp2 in He2.
    apply with_percentage_elem in He2 as (kc & Hkc & ->).
    apply list_elem_of_fmap in Hkc as (g & -> & Hg).
    set (raw := (fun g => (g.1, Z.of_nat (length g.2)))
                  <$> groups gr (filter_isin qloc q_list (data (df st))))
      in *.
    exists (mkEntry g.1 (Z.of_nat (length g.2))
              (percent (Z.of_nat (length g.2)) (level0_total raw g.1))).
    split.
    + rewrite Hp1. apply with_percentage_elem.
      exists (g.1, Z.of_nat (length g.2)). split; [|done].
      apply list_elem_of_fmap. eauto.
    + split; [done|]. cbn [Count fst snd].
      pose proof (count_notna_bounds ((fun r => at_loc r vloc) <$> g.2)) as Hb.
      by rewrite length_fmap in Hb.
Qed.

Lemma pivot_count_at_most_rows_witness :
  let res :=
    [ mkEntry ["Q1"; "S1"; "Yes"] 1 (Fin (50 # 1));
      mkEntry ["Q1"; "S2"; "No"] 1 (Fin (50 # 1)) ] in
  key <$> [ mkEntry ["Q1"; "S1"; "Yes"] 2 (f64 (6667 # 100));
            mkEntry ["Q1"; "S2"; "No"] 1 (f64 (3333 # 100)) ]
  ≡ₚ key <$> res ∧
  ∀ e2, e2 ∈ res →
        ∃ e1, e1 ∈ [ mkEntry ["Q1"; "S1"; "Yes"] 2 (f64 (6667 # 100));
                     mkEntry ["Q1"; "S2"; "No"] 1 (f64 (3333 # 100)) ] ∧
              key e1 = key e2 ∧ (0 ≤ Count e2 ≤ Count e1)%Z.
Proof.
  refine (pivot_count_at_most_rows
            (init (mkDataFrame
                     ["question"; "subquestion"; "respondent_id"; "answer"]
                     [ [Some "Q1"; Some "S1"; Some "R1"; Some "Yes"];
                       [Some "Q1"; Some "S1"; None; Some "Yes"];
                       [Some "Q1"; Some "S2"; Some "R1"; Some "No"] ]) 4)
            ["Q1"] "subquestion" _ _ _ _);
    vm_compute; reflexivity.
Defined.

(** ** grouped_summary_stats: which column is reported *)

Lemma check_columns_first cols pre c post :
  Forall (fun n => n ∈ cols) pre → c ∉ cols →
  check_columns cols (pre ++ c :: post)
  = Raise (KeyError ("Column '" +:+ c +:+ "' not found in the DataFrame.")).
Proof.
  intros Hpre Hc. induction Hpre as [|n pre Hn _ IH]; simpl.
  - by rewrite decide_False.
  - by rewrite decide_True.
Qed.

(** X17: the [KeyError] of [grouped_summary_stats] names the first
    absent column in the order of [numeric_col_list] followed by
    [group_col]: the names before it are all present, and later absent
    names are not reported. *)
Theorem grouped_summary_stats_first_missing
    st numeric_col_list group_col summary_funcs pre c post :
  numeric_col_list ++ [group_col] = pre ++ c :: post →
  Forall (fun n => n ∈ columns (df st)) pre →
  c ∉ columns (df st) →
  ∀ reduce,
    grouped_summary_stats reduce st numeric_col_list group_col summary_funcs
    = (Raise (KeyError
                ("Column '" +:+ c +:+ "' not found in the DataFrame.")),
       st).
Proof.
  intros Hsplit Hpre Hc reduce. unfold grouped_summary_stats.
  by rewrite Hsplit, check_columns_first.
Qed.

Lemma grouped_summary_stats_first_missing_witness :
  grouped_summary_stats (fun _ _ => Raise (TypeError "agg")) scenario
    ["answer"; "score"; "age"] "group" default_summary_funcs
  = (Raise (KeyError "Column 'score' not found in the DataFrame."),
     scenario).
Proof.
  refine (grouped_summary_stats_first_missing scenario
            ["answer"; "score"; "age"] "group" default_summary_funcs
            ["answer"] "score" ["age"; "group"] eq_refl _ _
            (fun _ _ => Raise (TypeError "agg"))).
  - apply Forall_cons. split; [|apply Forall_nil_2].
    vm_compute. do 3 right. left.
  - intros Hin. vm_compute in Hin.
    repeat (apply elem_of_cons in Hin as [Hin|Hin]; [discriminate Hin|]).
    by apply elem_of_nil in Hin.
Defined.

(** ** Response counts *)

Lemma nunique_le_length (cells : list cell) :
  (nunique cells ≤ Z.of_nat (length cells))%Z.
Proof.
  unfold nunique. apply inj_le.
  transitivity (length (omap id cells)).
  - apply submseteq_length, NoDup_submseteq; [apply NoDup_remove_dups|].
    intros x. by rewrite elem_of_remove_dups.
  - induction cells as [|[v|] cells IH]; [done|..].
    + change (omap id (Some v :: cells)) with (v :: omap id cells).
      simpl length. lia.
    + change (omap id (None :: cells)) with (omap id cells).
      simpl length. lia.
Qed.

Lemma nunique_zero (cells : list cell) :
  nunique cells = 0%Z ↔ ∀ c, c ∈ cells → c = None.
Proof.
  unfold nunique. split.
  - intros H [x|] Hc; [|done].
    assert (x ∈ remove_dups (omap id cells)) as Hx.
    { apply elem_of_remove_dups, list_elem_of_omap. by exists (Some x). }
    destruct (remove_dups (omap id cells)); [by apply elem_of_nil in Hx|].
    simpl in H. lia.
  - intros H. destruct (remove_dups (omap id cells)) as [|x l] eqn:E; [done|].
    assert (x ∈ remove_dups (omap id cells)) as Hx by (rewrite E; left).
    apply elem_of_remove_dups, list_elem_of_omap in Hx as (c & Hc & Hx).
    simpl in Hx. subst c. by specialize (H _ Hc).
Qed.

(** X18: unless the question column is named like a value column of
    the result, in the result of [multi_response_analysis] the count of
    a group lies between 0 and the number of filtered rows of that
    group, which has at least one row; the count is 0 exactly when every
    row of the group lacks its respondent identifier. *)
Theorem response_count_of_group st q_list group_cols res e :
  question_col st ∉ ["Response Count"; "Percentage (%)"] →
  multi_response_analysis st q_list group_cols = Ok res → e ∈ res →
  ∃ qloc locs rloc,
    get_loc (columns (df st)) (question_col st) = Ok qloc ∧
    mapM (get_loc (columns (df st)))
         (group_cols ++ [question_col st; subquest_col st]) = Ok locs ∧
    select_column (columns (df st)) (respondent_col st) = Ok rloc ∧
    let rows := filter (fun r => row_key locs r = Some (key e))
                  (filter_isin qloc q_list (data (df st))) in
    (0 < length rows)%nat ∧
    (0 ≤ Count e ≤ Z.of_nat (length rows))%Z ∧
    (Count e = 0%Z ↔ ∀ r, r ∈ rows → at_loc r rloc = None).
Proof.
  intros Hname Hres He.
  destruct (multi_response_analysis_by_columns _ _ _ _ Hname Hres)
    as (qloc & locs & rloc & Hq & Hl & Hr & Hperm).
  exists qloc, locs, rloc. do 3 (split; [done|]).
  rewrite Hperm in He. apply list_elem_of_fmap in He as (g & -> & Hg).
  cbn [key Count]. pose proof (groupby_nonempty _ _ _ Hg) as Hne.
  apply groupby_elem in Hg as [_ Hg]. rewrite <- Hg.
  split; [done|]. split.
  - pose proof (nunique_le_length ((fun r => at_loc r rloc) <$> g.2)) as Hb.
    rewrite length_fmap in Hb. unfold nunique in *. lia.
  - rewrite nunique_zero. split.
    + intros H r Hin. apply H, list_elem_of_fmap. eauto.
    + intros H c (r & -> & Hin)%list_elem_of_fmap. by apply H.
Qed.

Lemma response_count_of_group_witness :
  ∃ qloc locs rloc,
    get_loc (columns (df scenario)) (question_col scenario) = Ok qloc ∧
    mapM (get_loc (columns (df scenario)))
         ([] ++ [question_col scenario; subquest_col scenario]) = Ok locs ∧
    select_column (columns (df scenario)) (respondent_col scenario) = Ok rloc ∧
    let rows := filter (fun r => row_key locs r = Some ["Q1"; "S1"])
                  (filter_isin qloc ["Q1"] (data (df scenario))) in
    (0 < length rows)%nat ∧
    (0 ≤ 2 ≤ Z.of_nat (length rows))%Z ∧
    (2%Z = 0%Z ↔ ∀ r, r ∈ rows → at_loc r rloc = None).
Proof.
  refine (response_count_of_group scenario ["Q1"] [] _
            (mkEntry ["Q1"; "S1"] 2 (Fin (50 # 1))) _ _ _).
  - by_evaluation.
  - vm_compute. reflexivity.
  - left.
Defined.

(** ** Division by a zero question total *)

(** X19: in the result of [nominal_frequency_pivot] a row whose
    question has no respondent value present at all (the counts under it
    sum to 0) has the percentage nan, the outcome of 0 / 0; every other
    row has a finite percentage between 0 and 100. *)
Theorem pivot_zero_total_percentage st q_list group_col res e :
  nominal_frequency_pivot st q_list group_col = Ok res → e ∈ res →
  let total :=
    zsum (Count <$> filter (fun e' => head (key e') = head (key e)) res) in
  (total = 0%Z → Percentage e = NaN) ∧
  (total ≠ 0%Z → ∃ p, Percentage e = Fin p ∧ (0 <= p)%Q ∧ (p <= 100)%Q).
Proof.
  intros (qloc & gr & vloc & Hq & Hgr & Hv & _ & Hperm)%nominal_frequency_pivot_inv
    He total.
  pose proof He as He'. rewrite Hperm in He'.
  apply with_percentage_elem in He' as (kc & Hkc & ->).
  set (raw := (fun g => (g.1, count_notna ((fun r => at_loc r vloc) <$> g.2)))
                <$> groups gr (filter_isin qloc q_list (data (df st))))
    in *.
  cbn [key Percentage] in *.
  assert (Hnn : ∀ kc', kc' ∈ raw → (0 ≤ kc'.2)%Z).
  { intros kc' (g & -> & Hg)%list_elem_of_fmap. simpl.
    apply count_notna_bounds. }
  assert (Htot : level0_total raw kc.1 = total)
    by apply (question_total_of_result _ res kc.1 Hperm).
  assert (Hle : (kc.2 ≤ total)%Z).
  { rewrite <- Htot. unfold level0_total. apply zsum_elem_le.
    - apply list_elem_of_fmap. exists kc. split; [done|].
      by apply list_elem_of_filter.
    - apply Forall_fmap, Forall_forall.
      intros kc' [_ Hin]%list_elem_of_filter. simpl. by apply Hnn. }
  pose proof (Hnn kc Hkc) as H0. rewrite Htot. split.
  - intros Hz. rewrite Hz in *. assert (kc.2 = 0%Z) as -> by lia.
    by rewrite percent_zero_denominator.
  - intros Hnz. apply percent_range; lia.
Qed.

Lemma pivot_zero_total_percentage_witness :
  let e := mkEntry ["Q1"; "S1"; "Yes"] 0 NaN in
  let total :=
    zsum (Count <$> filter (fun e' => head (key e') = head (key e)) [e]) in
  (total = 0%Z → Percentage e = NaN) ∧
  (total ≠ 0%Z → ∃ p, Percentage e = Fin p ∧ (0 <= p)%Q ∧ (p <= 100)%Q).
Proof.
  refine (pivot_zero_total_percentage
            (init (mkDataFrame
                     ["question"; "subquestion"; "respondent_id"; "answer"]
                     [ [Some "Q1"; Some "S1"; None; Some "Yes"] ]) 4)
            ["Q1"] "subquestion" _ (mkEntry ["Q1"; "S1"; "Yes"] 0 NaN) _ _).
  - vm_compute. reflexivity.
  - left.
Defined.

(** ** Lazy lookup failures of the grouping *)

Lemma mapM_get_loc_first_absent cols pre c post :
  Forall (fun l => is_ok (get_loc cols l) = true) pre → c ∉ cols →
  mapM (get_loc cols) (pre ++ c :: post) = Raise (KeyError c).
Proof.
  intros Hpre Hc. induction Hpre as [|l pre Hl _ IH].
  - simpl. by rewrite get_loc_absent.
  - rewrite <- app_comm_cons. cbn [mapM].
    destruct (get_loc cols l); [|done]. simpl. by rewrite IH.
Qed.

(** X20: when the question column resolves and the number of filtered
    rows differs from the number of grouping keys, the first grouping
    label that is absent from the held table (in the order group
    columns, question, subquestion for [multi_response_analysis], and
    question, group, answer for [nominal_frequency_analysis]) is the one
    whose name the raised [KeyError] carries, provided the labels before
    it resolve.  With exactly three filtered rows
    [nominal_frequency_analysis] groups by position instead and fails in
    its final sort, on the question label, unless that label names a
    value column of the result. *)
Theorem grouping_label_missing st q_list pre c post qloc :
  get_loc (columns (df st)) (question_col st) = Ok qloc →
  Forall (fun l => is_ok (get_loc (columns (df st)) l) = true) pre →
  c ∉ columns (df st) →
  (length (filter_isin qloc q_list (data (df st))) ≠ length (pre ++ c :: post) →
   (∀ group_cols,
      group_cols ++ [question_col st; subquest_col st] = pre ++ c :: post →
      multi_response_analysis st q_list group_cols = Raise (KeyError c)) ∧
   (∀ group_col,
      [question_col st; group_col; answer_col st] = pre ++ c :: post →
      nominal_frequency_analysis st q_list group_col = Raise (KeyError c))) ∧
  (length (filter_isin qloc q_list (data (df st))) = 3%nat →
   question_col st ∉ ["Count"; "Percentage (%)"] →
   ∀ group_col,
     [question_col st; group_col; answer_col st] = pre ++ c :: post →
     nominal_frequency_analysis st q_list group_col
     = Raise (KeyError (question_col st))).
Proof.
  intros Hq Hpre Hc. split; [intros Hlen; split|].
  - intros group_cols Hsplit. unfold multi_response_analysis. cbv zeta.
    rewrite Hq, Hsplit. cbn [mbind result_bind]. unfold resolve_keys.
    rewrite decide_False by (intros [? _]; congruence).
    by rewrite mapM_get_loc_first_absent.
  - intros group_col Hsplit. unfold nominal_frequency_analysis. cbv zeta.
    rewrite Hq, Hsplit. cbn [mbind result_bind]. unfold resolve_keys.
    rewrite decide_False by (intros [? _]; congruence).
    by rewrite mapM_get_loc_first_absent.
  - intros Hlen Hname group_col Hsplit.
    unfold nominal_frequency_analysis. cbv zeta.
    rewrite Hq. cbn [mbind result_bind]. unfold resolve_keys.
    rewrite decide_True.
    + cbn [mbind result_bind index_names]. unfold check_sort_label.
      cbn [positions]. by rewrite decide_False by done.
    + split; [by rewrite Hlen|]. rewrite Hsplit. intros Hall.
      apply Forall_app in Hall as [_ Hall]. by apply Forall_cons in Hall as [? _].
Qed.

Lemma grouping_label_missing_witness :
  multi_response_analysis scenario ["Q1"] ["region"; "answer"]
  = Raise (KeyError "region").
Proof.
  refine (proj1 (proj1 (grouping_label_missing scenario ["Q1"] [] "region"
                          ["answer"; "question"; "subquestion"] 0 _ _ _) _)
            ["region"; "answer"] eq_refl).
  - vm_compute. reflexivity.
  - apply Forall_nil_2.
  - by_evaluation.
  - vm_compute. discriminate.
Defined.
